(** * cc_utils/preprocess_shtech.py: density-map synthesis and tiling

    A shallow embedding of the pre-processing script of crowdcount3 and the
    properties of its kernel factory, dot-map builder, density convolver,
    geometry rescaler and tiler.

    Conventions of the embedding.
    - Python [int] is [Z]; [//] is floor division, which is [Z.div].
    - Python [float] is modelled by rationals [Q].  The stride of the tiler
      is computed as IEEE doubles compute it, every operation rounded to 53
      bits, to nearest, ties to even ([round53]); elsewhere the arithmetic
      is exact.  [int(x)] on a float truncates towards zero.
    - A numpy array (or torch tensor) is its shape together with its indexing
      function; memory layout, dtype conversion and copies are not modelled.
    - An exception is a value of [exn]; a function that can raise returns a
      [result]. *)

From Stdlib Require Import ZArith QArith Qround Qminmax List Bool Lia Lqa.
From Stdlib Require Import Setoid Morphisms.
Import ListNotations.
Open Scope Z_scope.

(** ** Exceptions *)

Inductive exn : Type :=
| ValueError
| IndexError
| ZeroDivisionError
| RuntimeError
| EinopsError.

Inductive result (A : Type) : Type :=
| Ok (a : A)
| Raise (e : exn).

Arguments Ok {A} a.
Arguments Raise {A} e.

Definition bind {A B : Type} (r : result A) (f : A -> result B) : result B :=
  match r with
  | Ok a => f a
  | Raise e => Raise e
  end.

Notation "x <- r ;; k" := (bind r (fun x => k))
  (at level 61, r at next level, right associativity).

Fixpoint mapM {A B : Type} (f : A -> result B) (l : list A) : result (list B) :=
  match l with
  | [] => Ok []
  | a :: rest => b <- f a ;; bs <- mapM f rest ;; Ok (b :: bs)
  end.

Definition is_ok {A : Type} (r : result A) : bool :=
  match r with
  | Ok _ => true
  | Raise _ => false
  end.

(** ** Python numbers *)

(** [int(x)] for a float [x]: truncation towards zero. *)
Definition py_int (x : Q) : Z := Z.quot (Qnum x) (Zpos (Qden x)).

(** [a // b] on integers. *)
Definition py_floordiv (a b : Z) : result Z :=
  if b =? 0 then Raise ZeroDivisionError else Ok (a / b).

(** [a / b] on integers (true division). *)
Definition py_truediv (a b : Z) : result Q :=
  if b =? 0 then Raise ZeroDivisionError else Ok (inject_Z a / inject_Z b)%Q.

(** [range(n)]. *)
Definition zrange (n : Z) : list Z := map Z.of_nat (seq 0 (Z.to_nat n)).

(** [l[i]] for a list and an index that may be negative. *)
Definition list_getitem {A : Type} (l : list A) (i : Z) : result A :=
  let n := Z.of_nat (length l) in
  let j := if i <? 0 then i + n else i in
  if j <? 0 then Raise IndexError
  else match nth_error l (Z.to_nat j) with
       | Some a => Ok a
       | None => Raise IndexError
       end.

Definition Qsum (l : list Q) : Q := fold_right Qplus 0%Q l.

(** The sum of [f i] for [i] in [range(n)]. *)
Definition sum_over (n : Z) (f : Z -> Q) : Q := Qsum (map f (zrange n)).

(** ** Arrays *)

Record ndarray (A : Type) : Type := mk_ndarray {
  shape : list Z;
  at_ : list Z -> A
}.

Arguments mk_ndarray {A} shape at_.
Arguments shape {A} n.
Arguments at_ {A} n idx.

(** [np.zeros(shp)]: a negative dimension is rejected. *)
Definition np_zeros {A : Type} (zero : A) (shp : list Z) : result (ndarray A) :=
  if forallb (fun d => 0 <=? d) shp
  then Ok (mk_ndarray shp (fun _ => zero))
  else Raise ValueError.

(** An integer index into an axis of length [len]: a negative index counts
    from the end, anything outside [-len, len) raises. *)
Definition norm_index (len i : Z) : result Z :=
  if (0 <=? i) && (i <? len) then Ok i
  else if (- len <=? i) && (i <? 0) then Ok (i + len)
  else Raise IndexError.

(** [a[y, x] = v].  With more than two axes the whole sub-array at [y, x]
    is filled with [v]. *)
Definition setitem2 {A : Type} (a : ndarray A) (y x : Z) (v : A)
  : result (ndarray A) :=
  match shape a with
  | n0 :: n1 :: _ =>
      y' <- norm_index n0 y ;;
      x' <- norm_index n1 x ;;
      Ok (mk_ndarray (shape a)
            (fun idx =>
               match idx with
               | i :: j :: _ => if (i =? y') && (j =? x') then v else at_ a idx
               | _ => at_ a idx
               end))
  | _ => Raise IndexError
  end.

(** The bounds of [start:stop] on an axis of length [len] (step 1): the
    first index and the number of indices. *)
Definition slice_indices (len start stop : Z) : Z * Z :=
  let adjust v := if v <? 0 then Z.max 0 (v + len) else Z.min v len in
  let s := adjust start in
  let e := adjust stop in
  (s, Z.max 0 (e - s)).

(** [a[r0:r1, c0:c1, :]]: three index items need at least three axes. *)
Definition getitem_window {A : Type} (a : ndarray A) (r0 r1 c0 c1 : Z)
  : result (ndarray A) :=
  match shape a with
  | n0 :: n1 :: n2 :: rest =>
      let '(rs, rn) := slice_indices n0 r0 r1 in
      let '(cs, cn) := slice_indices n1 c0 c1 in
      Ok (mk_ndarray (rn :: cn :: n2 :: rest)
            (fun idx =>
               match idx with
               | i :: j :: tl => at_ a (rs + i :: cs + j :: tl)
               | _ => at_ a idx
               end))
  | _ => Raise IndexError
  end.

(** Broadcasting of a value's shape against the shape of the region that is
    assigned, both read from the last axis. *)
Fixpoint broadcastable (vrev rrev : list Z) : bool :=
  match vrev with
  | [] => true
  | d :: vs =>
      match rrev with
      | r :: rs => ((d =? r) || (d =? 1)) && broadcastable vs rs
      | [] => (d =? 1) && broadcastable vs []
      end
  end.

Fixpoint bcast_index_rev (vrev irev : list Z) : list Z :=
  match vrev with
  | [] => []
  | d :: vs =>
      match irev with
      | i :: irest => (if d =? 1 then 0 else i) :: bcast_index_rev vs irest
      | [] => 0 :: bcast_index_rev vs []
      end
  end.

Definition bcast_index (vshape idx : list Z) : list Z :=
  rev (bcast_index_rev (rev vshape) (rev idx)).

(** [a[r0:r1, c0:c1] = v]. *)
Definition setitem_window {A : Type} (a : ndarray A) (r0 r1 c0 c1 : Z)
  (v : ndarray A) : result (ndarray A) :=
  match shape a with
  | n0 :: n1 :: rest =>
      let '(rs, rn) := slice_indices n0 r0 r1 in
      let '(cs, cn) := slice_indices n1 c0 c1 in
      if broadcastable (rev (shape v)) (rev (rn :: cn :: rest)) then
        Ok (mk_ndarray (shape a)
              (fun idx =>
                 match idx with
                 | i :: j :: tl =>
                     if (rs <=? i) && (i <? rs + rn) && (cs <=? j) && (j <? cs + cn)
                     then at_ v (bcast_index (shape v) (i - rs :: j - cs :: tl))
                     else at_ a idx
                 | _ => at_ a idx
                 end))
      else Raise ValueError
  | _ => Raise IndexError
  end.

(** [rearrange(a, '(p1 h) (p2 w) ... -> (p1 p2) h w ...', h=t, w=t)] with
    [extra] trailing axes named in the pattern.  Axis lengths that do not
    factor are rejected.  The tiler never gets here with [t <= 0]: it has
    raised on the division or on the padding before. *)
Definition rearrange_tiles {A : Type} (extra : nat) (a : ndarray A) (t : Z)
  : result (ndarray A) :=
  match shape a with
  | H :: W :: rest =>
      if negb (length rest =? extra)%nat then Raise EinopsError
      else if (t <=? 0) || negb (H mod t =? 0) || negb (W mod t =? 0)
           then Raise EinopsError
      else
        let p2 := W / t in
        Ok (mk_ndarray ((H / t) * p2 :: t :: t :: rest)
              (fun idx =>
                 match idx with
                 | n :: i :: j :: tl =>
                     at_ a ((n / p2) * t + i :: (n mod p2) * t + j :: tl)
                 | _ => at_ a idx
                 end))
  | _ => Raise EinopsError
  end.

Definition shape_eqb (s1 s2 : list Z) : bool :=
  if list_eq_dec Z.eq_dec s1 s2 then true else false.

(** [np.stack(arrays)] and [torch.stack(arrays)]; [e] is the exception the
    library raises on an empty list or on arrays of different shapes. *)
Definition stack {A : Type} (e : exn) (arrays : list (ndarray A))
  : result (ndarray A) :=
  match arrays with
  | [] => Raise e
  | a0 :: rest =>
      if forallb (fun a => shape_eqb (shape a) (shape a0)) rest then
        Ok (mk_ndarray (Z.of_nat (length arrays) :: shape a0)
              (fun idx =>
                 match idx with
                 | k :: tl => at_ (nth (Z.to_nat k) arrays a0) tl
                 | [] => at_ a0 []
                 end))
      else Raise e
  end.

(** [a.transpose(1, 2, 0)]. *)
Definition transpose_120 {A : Type} (a : ndarray A) : result (ndarray A) :=
  match shape a with
  | [s0; s1; s2] =>
      Ok (mk_ndarray [s1; s2; s0]
            (fun idx =>
               match idx with
               | [i; j; k] => at_ a [k; i; j]
               | _ => at_ a idx
               end))
  | _ => Raise ValueError
  end.

(** [t.unsqueeze(0)]. *)
Definition unsqueeze0 {A : Type} (a : ndarray A) : ndarray A :=
  mk_ndarray (1 :: shape a) (fun idx => at_ a (tl idx)).

(** [t.squeeze()]: every axis of length 1 is removed. *)
Definition squeeze_shape (shp : list Z) : list Z :=
  filter (fun d => negb (d =? 1)) shp.

Fixpoint unsqueeze_index (shp idx : list Z) : list Z :=
  match shp with
  | [] => []
  | d :: ds =>
      if d =? 1 then 0 :: unsqueeze_index ds idx
      else match idx with
           | i :: irest => i :: unsqueeze_index ds irest
           | [] => []
           end
  end.

Definition squeeze {A : Type} (a : ndarray A) : ndarray A :=
  mk_ndarray (squeeze_shape (shape a))
    (fun idx => at_ a (unsqueeze_index (shape a) idx)).

(** All index tuples of an array of shape [shp], in row-major order. *)
Fixpoint indices (shp : list Z) : list (list Z) :=
  match shp with
  | [] => [[]]
  | d :: ds => flat_map (fun i => map (cons i) (indices ds)) (zrange d)
  end.

(** [a.sum()]. *)
Definition total (a : ndarray Q) : Q := Qsum (map (at_ a) (indices (shape a))).

(** ** KernelFactory *)

(** [get_kernel_and_sigma_list]: the two argument strings are split on
    single spaces and every token goes through [int] or [float]; nothing
    else is checked.  The tokens' conversions are Python's own and are
    taken as given. *)
Section ArgumentLists.
Context {token : Type}.
Variable py_int_of_token : token -> result Z.
Variable py_float_of_token : token -> result Q.

Definition get_kernel_and_sigma_list (kernel_size sigma : list token)
  : result (list Z * list Q) :=
  kernel_list <- mapM py_int_of_token kernel_size ;;
  sigma_list <- mapM py_float_of_token sigma ;;
  Ok (kernel_list, sigma_list).
End ArgumentLists.

Section KernelFactory.
(** [scipy.ndimage.gaussian_filter(input, sigma=sigma)]: returns an array
    for every array and every finite [sigma]. *)
Variable gaussian_filter : ndarray Q -> Q -> ndarray Q.

Definition create_density_kernel (kernel_size : Z) (sigma : Q)
  : result (ndarray Q) :=
  kernel <- np_zeros 0%Q [kernel_size; kernel_size] ;;
  let mid_point := kernel_size / 2 in
  kernel <- setitem2 kernel mid_point mid_point 1%Q ;;
  Ok (gaussian_filter kernel sigma).

(** The kernel list of [main]: one kernel per entry of [sigma_list], the
    kernel sizes read at the same positions. *)
Definition main_kernel_list (kernel_size_list : list Z) (sigma_list : list Q)
  : result (list (ndarray Q)) :=
  mapM (fun index =>
          kernel_size <- list_getitem kernel_size_list index ;;
          sigma <- list_getitem sigma_list index ;;
          create_density_kernel kernel_size sigma)
       (zrange (Z.of_nat (length sigma_list))).
End KernelFactory.

(** ** DotMapBuilder *)

Fixpoint dot_loop (locations : list (Q * Q)) (density : ndarray Q)
  : result (ndarray Q) :=
  match locations with
  | [] => Ok density
  | (x, y) :: rest =>
      density' <- setitem2 density (py_int y) (py_int x) 1%Q ;;
      dot_loop rest density'
  end.

Definition create_dot_map (locations : list (Q * Q)) (image_size : list Z)
  : result (ndarray Q) :=
  density <- np_zeros 0%Q (removelast image_size) ;;
  dot_loop locations density.

(** ** DensityConvolver *)

(** [nn.Conv2d(1, 1, kernel.shape, bias=False, padding=p)] applied to a
    batched single-channel input: cross-correlation with zero padding. *)
Definition padded_at (input : ndarray Q) (n h w i j : Z) : Q :=
  if (0 <=? i) && (i <? h) && (0 <=? j) && (j <? w)
  then at_ input [n; 0; i; j]
  else 0%Q.

Definition conv2d (kernel : ndarray Q) (padding : Z) (input : ndarray Q)
  : result (ndarray Q) :=
  match shape kernel, shape input with
  | [kh; kw], [n; c; h; w] =>
      let oh := h + 2 * padding - kh + 1 in
      let ow := w + 2 * padding - kw + 1 in
      if negb (c =? 1) || (oh <=? 0) || (ow <=? 0) then Raise RuntimeError
      else
        Ok (mk_ndarray [n; 1; oh; ow]
              (fun idx =>
                 match idx with
                 | [b; _; i; j] =>
                     sum_over kh (fun u =>
                       sum_over kw (fun v =>
                         at_ kernel [u; v]
                         * padded_at input b h w (i + u - padding) (j + v - padding)))%Q
                 | _ => 0%Q
                 end))
  | _, _ => Raise RuntimeError
  end.

(** [GaussianKernel(kernel_weights, device).forward(density)]. *)
Definition GaussianKernel_forward (kernel_weights density : ndarray Q)
  : result (ndarray Q) :=
  k0 <- list_getitem (shape kernel_weights) 0 ;;
  out <- conv2d kernel_weights (k0 / 2) density ;;
  Ok (squeeze out).

(** The density field of [main]: dot map, one channel per kernel, channels
    last. *)
Definition main_density (kernel_list : list (ndarray Q))
  (locations : list (Q * Q)) (image_shape : list Z) : result (ndarray Q) :=
  density <- create_dot_map locations image_shape ;;
  let density := unsqueeze0 (unsqueeze0 density) in
  density_maps <- mapM (fun kernel => GaussianKernel_forward kernel density)
                       kernel_list ;;
  density <- stack RuntimeError density_maps ;;
  transpose_120 density.

(** ** GeometryRescaler *)

Record PILImage : Type := mk_image {
  im_size : Z * Z;                    (* (width, height) *)
  im_pixel : Z -> Z -> Z -> Z         (* x, y, channel *)
}.

(** [np.asarray(image)] for an RGB image. *)
Definition np_asarray (image : PILImage) : ndarray Z :=
  let '(w, h) := im_size image in
  mk_ndarray [h; w; 3]
    (fun idx =>
       match idx with
       | [i; j; c] => im_pixel image j i c
       | _ => 0
       end).

Definition scale_locations (locations : list (Q * Q)) (scale : Q)
  : list (Q * Q) :=
  map (fun p => (fst p * scale, snd p * scale)%Q) locations.

Section GeometryRescaler.
(** [Image.resize((w, h))] of PIL. *)
Variable resize : PILImage -> Z * Z -> PILImage.

Definition resize_rescale_info (image : PILImage) (locations : list (Q * Q))
  (image_size : Z) : result (ndarray Z * list (Q * Q)) :=
  let '(w, h) := im_size image in
  if (h <? image_size) || (w <? image_size) then
    rh <- py_truediv image_size h ;;
    rw <- py_truediv image_size w ;;
    let scale := inject_Z (Qceiling (Qmax rh rw)) in
    let h' := py_int (scale * inject_Z h) in
    let w' := py_int (scale * inject_Z w) in
    let locations := scale_locations locations scale in
    Ok (np_asarray (resize image (w', h')), locations)
  else
    Ok (np_asarray (resize image (w, h)), locations).
End GeometryRescaler.

(** ** Tiler *)

(** *** Double-precision arithmetic of the stride

    [overlap] is a Python [float], an IEEE binary64 number, so each of the
    operations of [split_size * (1 - overlap)] (the conversion of
    [split_size] to a float, the subtraction and the product) returns the
    double nearest to the exact result, ties going to the even
    significand. *)

(** The integer nearest to [a / b], for [0 < b], ties to even. *)
Definition round_half_even (a b : Z) : Z :=
  let q := a / b in
  match 2 * (a mod b) ?= b with
  | Lt => q
  | Gt => q + 1
  | Eq => if Z.even q then q else q + 1
  end.

(** The significand [m] and the exponent [e] of the 53-bit number
    [m * 2^e] nearest to [n / d], for positive [n] and [d].  The fraction
    is first scaled by [2^(-e0)] into [[2^52, 2^54)]; when it reaches
    [2^53] one more bit is dropped. *)
Definition round53_pos (n d : Z) : Z * Z :=
  let e0 := Z.log2 n - Z.log2 d - 53 in
  let a := if 0 <=? e0 then n else n * 2 ^ (- e0) in
  let b := if 0 <=? e0 then d * 2 ^ e0 else d in
  if a / b <? 2 ^ 53 then (round_half_even a b, e0)
  else (round_half_even a (2 * b), e0 + 1).

(** [m * 2^e] as a rational. *)
Definition scale2 (m e : Z) : Q :=
  if 0 <=? e then inject_Z (m * 2 ^ e) else Qmake m (Z.to_pos (2 ^ (- e))).

(** Rounding to 53 bits of precision, to nearest, ties to even.  The
    exponent is not bounded here: [finite] tells whether the result is in
    the range of the doubles. *)
Definition round53 (x : Q) : Q :=
  match Qnum x with
  | 0 => 0%Q
  | Zpos n =>
      let '(m, e) := round53_pos (Zpos n) (Zpos (Qden x)) in scale2 m e
  | Zneg n =>
      let '(m, e) := round53_pos (Zpos n) (Zpos (Qden x)) in
      Qopp (scale2 m e)
  end.

(** A rounded value is a finite double when it is below [2^1024] in
    magnitude; beyond, Python has [inf] or raises [OverflowError]. *)
Definition finite (x : Q) : bool :=
  Z.abs (Qnum x) <? 2 ^ 1024 * Zpos (Qden x).

(** [stride = int(split_size * (1 - overlap))], in double precision.
    [overlap] is read as the double nearest to it, so that [9 # 10] stands
    for the Python literal [0.9]; a float is passed at every call of the
    script, the integer default [0] of the signature is not used. *)
Definition stride_of (split_size : Z) (overlap : Q) : Z :=
  py_int (round53 (round53 (inject_Z split_size)
                   * round53 (1 - round53 overlap))).

(** No operation of the stride leaves the range of the doubles: [overlap]
    is a finite float, [split_size] converts to a float and the product
    does not overflow.  No operation underflows: [1 - overlap] is zero or
    at least [2^-53] in magnitude and [split_size] is an integer. *)
Definition stride_finite (split_size : Z) (overlap : Q) : bool :=
  finite (round53 overlap)
  && finite (round53 (inject_Z split_size))
  && finite (round53 (round53 (inject_Z split_size)
                      * round53 (1 - round53 overlap))).

(** The [while True] loop of [start_points]; [None] when the fuel runs out
    before the loop breaks. *)
Fixpoint start_points_loop (fuel : nat) (size split_size stride counter : Z)
  (points : list Z) : option (list Z) :=
  match fuel with
  | O => None
  | S fuel' =>
      let pt := stride * counter in
      if pt + split_size >=? size then
        if split_size =? size then Some points
        else Some (points ++ [size - split_size])
      else
        start_points_loop fuel' size split_size stride (counter + 1)
          (points ++ [pt])
  end.

Definition start_points (fuel : nat) (size split_size : Z) (overlap : Q)
  : option (list Z) :=
  start_points_loop fuel size split_size (stride_of split_size overlap) 1 [0].

(** What [arrange_crops] returns: the stacked crops, or, after a failed
    stacking, the Python list of crops. *)
Inductive crops_value (A : Type) : Type :=
| Stacked (a : ndarray A)
| Unstacked (l : list (ndarray A)).

Arguments Stacked {A} a.
Arguments Unstacked {A} l.

(** The crops of the two nested loops of [arrange_crops], row offsets
    outermost. *)
Definition collect_crops {A : Type} (image : ndarray A)
  (x_start y_start : list Z) (crop_size : Z) : result (list (ndarray A)) :=
  mapM (fun ij => getitem_window image (fst ij) (fst ij + crop_size)
                                       (snd ij) (snd ij + crop_size))
       (flat_map (fun i => map (fun j => (i, j)) x_start) y_start).

(** [arrange_crops] returns its value together with the shapes it printed. *)
Definition arrange_crops {A : Type} (image : ndarray A)
  (x_start y_start : list Z) (crop_size : Z)
  : result (list (list Z) * crops_value A) :=
  crops <- collect_crops image x_start y_start crop_size ;;
  match stack ValueError crops with
  | Ok stacked => Ok ([], Stacked stacked)
  | Raise ValueError => Ok (shape image :: map shape crops, Unstacked crops)
  | Raise e => Raise e
  end.

(** [create_overlapping_crops]; the offsets are those of [start_points],
    which may not return. *)
Definition create_overlapping_crops {A : Type} (fuel : nat) (image : ndarray A)
  (crop_size : Z) (overlap : Q)
  : option (result (list (list Z) * crops_value A)) :=
  match shape image with
  | h :: w :: _ =>
      match start_points fuel w crop_size overlap with
      | None => None
      | Some X_points =>
          match start_points fuel h crop_size overlap with
          | None => None
          | Some Y_points => Some (arrange_crops image X_points Y_points crop_size)
          end
      end
  | _ => Some (Raise IndexError)
  end.

Definition padded_extent (n image_size : Z) : Z :=
  ((n - 1 + image_size) / image_size) * image_size.

Definition create_non_overlapping_crops (image : ndarray Z)
  (density : ndarray Q) (image_size : Z) : result (ndarray Z * ndarray Q) :=
  match shape density with
  | [h0; w0] =>
      qh <- py_floordiv (h0 - 1 + image_size) image_size ;;
      qw <- py_floordiv (w0 - 1 + image_size) image_size ;;
      let h := qh * image_size in
      let w := qw * image_size in
      pad_density <- np_zeros 0%Q [h; w] ;;
      c <- list_getitem (shape image) (-1) ;;
      pad_image <- np_zeros 0 [h; w; c] ;;
      let start_h := (h - h0) / 2 in
      let end_h := start_h + h0 in
      let start_w := (w - w0) / 2 in
      let end_w := start_w + w0 in
      pad_density <- setitem_window pad_density start_h end_h start_w end_w density ;;
      pad_image <- setitem_window pad_image start_h end_h start_w end_w image ;;
      pad_density <- rearrange_tiles 0 pad_density image_size ;;
      pad_image <- rearrange_tiles 1 pad_image image_size ;;
      Ok (pad_image, pad_density)
  | _ => Raise ValueError
  end.

(** ** Sharding *)

(** [l[start:stop]] on a Python list. *)
Definition py_slice {A : Type} (l : list A) (start stop : Z) : list A :=
  let '(s, n) := slice_indices (Z.of_nat (length l)) start stop in
  firstn (Z.to_nat n) (skipn (Z.to_nat s) l).

(** The list [setup_sub_folders] returns; the directories it creates on the
    way are not part of the model. *)
Definition setup_sub_folders {A : Type} (img_list : list A) (ndevices : Z)
  : result (list (list A)) :=
  per_device <- py_floordiv (Z.of_nat (length img_list)) ndevices ;;
  Ok (map (fun device =>
             py_slice img_list (device * per_device) ((device + 1) * per_device))
          (zrange (ndevices - 1))
      ++ [py_slice img_list ((ndevices - 1) * per_device)
            (Z.of_nat (length img_list))]).

(** ** Reference values and instances used by the statements below *)

(** The number of offsets strictly between the first one and the flush
    one. *)
Definition inner_count (size split_size stride : Z) : nat :=
  Z.to_nat ((size - split_size - 1) / stride).

(** The offsets of the sliding window, in closed form. *)
Definition window_offsets (size split_size stride : Z) : list Z :=
  if split_size =? size then [0]
  else map (fun i => stride * Z.of_nat i)
           (seq 0 (S (inner_count size split_size stride)))
       ++ [size - split_size].

(** A resize with the contract of PIL's: asking for the image's own size
    returns the image, any other size samples the nearest source pixel. *)
Definition resize_nearest (image : PILImage) (size : Z * Z) : PILImage :=
  let '(w, h) := im_size image in
  if (fst size =? w) && (snd size =? h) then image
  else mk_image size
         (fun x y c => im_pixel image (x * w / fst size) (y * h / snd size) c).

Definition gradient_image (w h : Z) : PILImage :=
  mk_image (w, h) (fun x y c => (x + y + c) mod 256).

(** The position a (possibly negative) index denotes on an axis of length
    [n]. *)
Definition wrap (n k : Z) : Z := if k <? 0 then k + n else k.

Definition in_index_range (n k : Z) : bool := (- n <=? k) && (k <? n).

(** The point's truncated coordinates are indices numpy accepts on an
    [h] x [w] array. *)
Definition index_valid (h w : Z) (p : Q * Q) : bool :=
  in_index_range h (py_int (snd p)) && in_index_range w (py_int (fst p)).

(** The point [p] is written at row [i], column [j]. *)
Definition hits (h w i j : Z) (p : Q * Q) : bool :=
  (i =? wrap h (py_int (snd p))) && (j =? wrap w (py_int (fst p))).

(** The array [create_density_kernel] hands to the Gaussian filter: zeros
    with a single 1 at the centre. *)
Definition impulse (kernel_size : Z) : ndarray Q :=
  mk_ndarray [kernel_size; kernel_size]
    (fun idx =>
       match idx with
       | i :: j :: _ =>
           if (i =? kernel_size / 2) && (j =? kernel_size / 2) then 1%Q else 0%Q
       | _ => 0%Q
       end).

(** One kernel per sigma, the sizes taken at the same positions. *)
Fixpoint pairwise_kernels (gaussian_filter : ndarray Q -> Q -> ndarray Q)
  (kernel_size_list : list Z) (sigma_list : list Q) {struct sigma_list}
  : result (list (ndarray Q)) :=
  match sigma_list with
  | [] => Ok []
  | sigma :: sigmas =>
      match kernel_size_list with
      | [] => Raise IndexError
      | kernel_size :: sizes =>
          kernel <- create_density_kernel gaussian_filter kernel_size sigma ;;
          kernels <- pairwise_kernels gaussian_filter sizes sigmas ;;
          Ok (kernel :: kernels)
      end
  end.

(** Every sigma has a kernel size at its position and that size is at
    least 1. *)
Definition kernel_sizes_usable (kernel_size_list : list Z) (sigma_list : list Q)
  : bool :=
  (length sigma_list <=? length kernel_size_list)%nat
  && forallb (fun k => 1 <=? k) (firstn (length sigma_list) kernel_size_list).

(** A 3 x 3 binomial kernel, of total mass 1. *)
Definition binomial_kernel : ndarray Q :=
  let weight (u : Z) : Q := if u =? 1 then 1 # 2 else 1 # 4 in
  mk_ndarray [3; 3]
    (fun idx =>
       match idx with
       | [u; v] => (weight u * weight v)%Q
       | _ => 0%Q
       end).


Definition constant_array {A : Type} (shp : list Z) (v : A) : ndarray A :=
  mk_ndarray shp (fun _ => v).

(** The crop [image[i:i+crop_size, j:j+crop_size, :]] of an image with
    [channels] channels, for offsets inside the image. *)
Definition crop_at {A : Type} (image : ndarray A) (crop_size channels : Z)
  (ij : Z * Z) : ndarray A :=
  mk_ndarray [crop_size; crop_size; channels]
    (fun idx =>
       match idx with
       | a :: b :: tl => at_ image (fst ij + a :: snd ij + b :: tl)
       | _ => at_ image idx
       end).


(** The truncated coordinates of a point, row first. *)
Definition truncated (p : Q * Q) : Z * Z := (py_int (snd p), py_int (fst p)).


(** * Properties *)

(** ** Overlapping-mode offsets *)

Section StartPoints.
Variables size split_size stride : Z.

(** While no offset has reached the far edge the loop appends one offset
    per iteration; the first one that does ends it. *)
Lemma start_points_loop_run (m : nat) :
  forall (counter : Z) (fuel : nat) (points : list Z),
    (m < fuel)%nat ->
    split_size <> size ->
    (forall i, 0 <= i < Z.of_nat m -> stride * (counter + i) + split_size < size) ->
    size <= stride * (counter + Z.of_nat m) + split_size ->
    start_points_loop fuel size split_size stride counter points
    = Some (points
            ++ map (fun i => stride * (counter + Z.of_nat i)) (seq 0 m)
            ++ [size - split_size]).
Proof.
  induction m as [|m IH]; intros counter fuel points Hfuel Hne Hlt Hge.
  - destruct fuel as [|fuel]; [lia|]. simpl.
    replace (counter + 0) with counter in Hge by lia.
    destruct (Z.geb_spec (stride * counter + split_size) size); [|lia].
    destruct (Z.eqb_spec split_size size); [contradiction|reflexivity].
  - destruct fuel as [|fuel]; [lia|].
    cbn [start_points_loop].
    assert (H0 : stride * (counter + 0) + split_size < size) by (apply Hlt; lia).
    replace (counter + 0) with counter in H0 by lia.
    destruct (Z.geb_spec (stride * counter + split_size) size); [lia|].
    rewrite (IH (counter + 1) fuel (points ++ [stride * counter])); try lia.
    + rewrite <- app_assoc. cbn [seq map app].
      replace (counter + Z.of_nat 0) with counter by lia.
      rewrite <- seq_shift, map_map.
      rewrite (map_ext (fun x => stride * (counter + Z.of_nat (S x)))
                       (fun i => stride * (counter + 1 + Z.of_nat i)))
        by (intros i; f_equal; lia).
      reflexivity.
    + intros i Hi. replace (counter + 1 + i) with (counter + (i + 1)) by lia.
      apply Hlt. lia.
Qed.

(** With a stride of zero the far edge is never reached. *)
Lemma start_points_loop_stuck (fuel : nat) :
  forall (counter : Z) (points : list Z),
    stride = 0 -> split_size < size ->
    start_points_loop fuel size split_size stride counter points = None.
Proof.
  induction fuel as [|fuel IH]; intros counter points Hs Hlt; [reflexivity|].
  cbn [start_points_loop]. subst stride.
  destruct (Z.geb_spec (0 * counter + split_size) size); [lia|].
  apply IH; [reflexivity|exact Hlt].
Qed.

(** When the axis is exactly one tile long, the first test already
    breaks the loop. *)
Lemma start_points_loop_single (fuel : nat) (points : list Z) :
  split_size = size -> 0 <= stride ->
  start_points_loop (S fuel) size split_size stride 1 points = Some points.
Proof.
  intros Heq Hs. cbn [start_points_loop].
  destruct (Z.geb_spec (stride * 1 + split_size) size); [|lia].
  destruct (Z.eqb_spec split_size size); [reflexivity|contradiction].
Qed.
End StartPoints.

(** C1, amended: for every axis length L, tile size T and overlap fraction f
    with L >= T whose stride int(T * (1 - f)), computed in double precision
    without overflow, is at least 1 (or is 0 with L = T), [start_points]
    returns; the offsets start at 0, advance by the stride while
    offset + T < L, the first offset with offset + T >= L is replaced by
    L - T, and only the offset 0 is used when L = T.  For L = 300, T = 256,
    f = 0.5 the offsets are [0, 44]. *)
Theorem start_points_offsets (size split_size : Z) (overlap : Q) :
  split_size <= size ->
  stride_finite split_size overlap = true ->
  1 <= stride_of split_size overlap
  \/ (size = split_size /\ stride_of split_size overlap = 0) ->
  let stride := stride_of split_size overlap in
  let n := inner_count size split_size stride in
  (forall fuel, (S n < fuel)%nat ->
     start_points fuel size split_size overlap
     = Some (window_offsets size split_size stride))
  /\ (size = split_size -> window_offsets size split_size stride = [0])
  /\ (split_size < size ->
      window_offsets size split_size stride
      = map (fun i => stride * Z.of_nat i) (seq 0 (S n)) ++ [size - split_size]
      /\ (forall i, (i <= n)%nat -> stride * Z.of_nat i + split_size < size)
      /\ size <= stride * Z.of_nat (S n) + split_size)
  /\ start_points 2 300 256 (1 # 2) = Some [0; 44].
Proof.
  intros Hle _ Hstride stride n.
  assert (Hdiv : split_size < size -> 1 <= stride ->
                 (forall i, (i <= n)%nat -> stride * Z.of_nat i + split_size < size)
                 /\ size <= stride * Z.of_nat (S n) + split_size).
  { intros Hlt Hs. unfold n, inner_count.
    set (d := size - split_size - 1).
    assert (Hd : 0 <= d) by (unfold d; lia).
    pose proof (Z.div_pos d stride Hd ltac:(lia)) as Hq.
    pose proof (Z.mul_div_le d stride ltac:(lia)) as Hlo.
    pose proof (Z.mul_succ_div_gt d stride ltac:(lia)) as Hhi.
    split.
    - intros i Hi.
      assert (Z.of_nat i <= d / stride) by lia.
      assert (stride * Z.of_nat i <= stride * (d / stride)) by nia.
      unfold d in *. lia.
    - rewrite Nat2Z.inj_succ, Z2Nat.id by lia. unfold d in *. lia. }
  split; [|split; [|split]].
  - intros fuel Hfuel. unfold start_points, window_offsets. fold stride.
    destruct (Z.eqb_spec split_size size) as [Heq|Hne].
    + destruct fuel as [|fuel]; [lia|].
      apply start_points_loop_single; [exact Heq|lia].
    + assert (Hlt : split_size < size) by lia.
      assert (Hs : 1 <= stride) by lia.
      destruct (Hdiv Hlt Hs) as [Hin Hout].
      rewrite (start_points_loop_run size split_size stride n 1 fuel [0]);
        try lia.
      * cbn [seq map]. replace (stride * Z.of_nat 0) with 0 by lia.
        cbn [app]. f_equal. f_equal. f_equal.
        rewrite <- seq_shift, map_map. apply map_ext. intros i. f_equal. lia.
      * intros i Hi.
        replace (1 + i) with (Z.of_nat (Z.to_nat (1 + i))) by lia.
        apply Hin. lia.
  - intros Heq. unfold window_offsets.
    destruct (Z.eqb_spec split_size size); [reflexivity|lia].
  - intros Hlt. split.
    + unfold window_offsets.
      destruct (Z.eqb_spec split_size size); [lia|reflexivity].
    + apply Hdiv; [exact Hlt|lia].
  - vm_compute. reflexivity.
Qed.

(** The amended C1 at L = 1000, T = 256, f = 0.5. *)
Lemma start_points_offsets_witness :
  start_points 8 1000 256 (1 # 2) = Some [0; 128; 256; 384; 512; 640; 744].
Proof.
  pose proof (start_points_offsets 1000 256 (1 # 2)) as H.
  destruct H as [H _];
    [lia | vm_compute; reflexivity | left; vm_compute; discriminate |].
  exact (H 8%nat ltac:(vm_compute; lia)).
Defined.

(** C1 as stated fails: with L = 300, T = 256 and f = 511/512, a double,
    the product 256 * (1 - f) is the double 0.5, the stride is 0 and
    [start_points] returns no offsets, whatever the fuel. *)
Lemma start_points_zero_stride_diverges :
  256 <= 300
  /\ stride_finite 256 (511 # 512) = true
  /\ stride_of 256 (511 # 512) = 0
  /\ ~ (exists fuel points, start_points fuel 300 256 (511 # 512) = Some points).
Proof.
  split; [lia|]. split; [vm_compute; reflexivity|].
  split; [vm_compute; reflexivity|].
  intros [fuel [points H]]. unfold start_points in H.
  rewrite start_points_loop_stuck in H;
    [discriminate|vm_compute; reflexivity|lia].
Qed.

(** ** Geometry rescaling *)

Lemma py_int_inject_mul (a b : Z) : py_int (inject_Z a * inject_Z b) = a * b.
Proof. unfold py_int. cbn. apply Z.quot_1_r. Qed.

Lemma resize_nearest_same (image : PILImage) :
  resize_nearest image (im_size image) = image.
Proof.
  unfold resize_nearest. destruct (im_size image) as [w h]. cbn [fst snd].
  rewrite !Z.eqb_refl. reflexivity.
Qed.

Lemma resize_nearest_size (image : PILImage) (w h : Z) :
  im_size (resize_nearest image (w, h)) = (w, h).
Proof.
  unfold resize_nearest. destruct (im_size image) as [w0 h0] eqn:E.
  cbn [fst snd].
  destruct (Z.eqb_spec w w0); destruct (Z.eqb_spec h h0); cbn [andb];
    try reflexivity.
  subst. exact E.
Qed.


Section GeometryRescalerFacts.
Variable resize : PILImage -> Z * Z -> PILImage.

(** PIL: resizing to the image's own size returns a copy of it. *)
Hypothesis resize_same_size : forall image, resize image (im_size image) = image.

(** PIL: the resized image has the size that was asked for. *)
Hypothesis resize_has_size :
  forall image w h, 0 < w -> 0 < h -> im_size (resize image (w, h)) = (w, h).

(** C7: when height >= minSize and width >= minSize the rescaler returns
    the input image (as an array) and the input points, unchanged. *)
Theorem resize_rescale_info_identity (image : PILImage)
  (locations : list (Q * Q)) (image_size : Z) :
  image_size <= snd (im_size image) ->
  image_size <= fst (im_size image) ->
  resize_rescale_info resize image locations image_size
  = Ok (np_asarray image, locations).
Proof.
  intros Hh Hw. unfold resize_rescale_info.
  pose proof (resize_same_size image) as Hsame.
  destruct (im_size image) as [w h] eqn:E. cbn [fst snd] in *.
  destruct (Z.ltb_spec h image_size); [lia|].
  destruct (Z.ltb_spec w image_size); [lia|].
  cbn [orb]. rewrite Hsame. reflexivity.
Qed.

End GeometryRescalerFacts.

(** C7 on a 640x480 image with minSize = 256. *)
Lemma resize_rescale_info_identity_witness :
  resize_rescale_info resize_nearest (gradient_image 640 480)
    [(10 # 1, 20 # 1)] 256
  = Ok (np_asarray (gradient_image 640 480), [(10 # 1, 20 # 1)]).
Proof.
  apply (resize_rescale_info_identity resize_nearest resize_nearest_same
           (gradient_image 640 480) [(10 # 1, 20 # 1)] 256);
    cbn; lia.
Defined.


(** ** Dot maps *)

Lemma norm_index_spec (n k : Z) :
  norm_index n k
  = if in_index_range n k then Ok (wrap n k) else Raise IndexError.
Proof.
  unfold norm_index, in_index_range, wrap.
  destruct (Z.leb_spec 0 k), (Z.ltb_spec k n), (Z.leb_spec (- n) k),
    (Z.ltb_spec k 0); cbn [andb]; try reflexivity; try lia.
Qed.

Lemma np_zeros_ok {A : Type} (zero : A) (shp : list Z) :
  Forall (fun d => 0 <= d) shp ->
  np_zeros zero shp = Ok (mk_ndarray shp (fun _ => zero)).
Proof.
  intros H. unfold np_zeros.
  replace (forallb (fun d => 0 <=? d) shp) with true; [reflexivity|].
  symmetry. apply forallb_forall. intros d Hd.
  rewrite Forall_forall in H. apply Z.leb_le. apply H. exact Hd.
Qed.

(** One write of the loop on a two-axis array. *)
Lemma setitem2_spec (a : ndarray Q) (h w y x : Z) (v : Q) :
  shape a = [h; w] ->
  match setitem2 a y x v with
  | Ok a' =>
      in_index_range h y && in_index_range w x = true
      /\ shape a' = [h; w]
      /\ forall i j, at_ a' [i; j]
                     = if (i =? wrap h y) && (j =? wrap w x) then v else at_ a [i; j]
  | Raise e => in_index_range h y && in_index_range w x = false /\ e = IndexError
  end.
Proof.
  intros Hs. unfold setitem2. rewrite Hs, !norm_index_spec.
  destruct (in_index_range h y); cbn [bind andb].
  - destruct (in_index_range w x); cbn [bind].
    + split; [reflexivity|]. split; [reflexivity|]. intros i j. reflexivity.
    + split; reflexivity.
  - split; reflexivity.
Qed.

(** The loop over the points: it writes every point, or raises at the first
    one numpy cannot index. *)
Lemma dot_loop_spec (locations : list (Q * Q)) :
  forall (density : ndarray Q) (h w : Z),
    shape density = [h; w] ->
    match dot_loop locations density with
    | Ok d =>
        forallb (index_valid h w) locations = true
        /\ shape d = [h; w]
        /\ forall i j, at_ d [i; j]
                       = if existsb (hits h w i j) locations then 1%Q
                         else at_ density [i; j]
    | Raise e => forallb (index_valid h w) locations = false /\ e = IndexError
    end.
Proof.
  induction locations as [|[x y] rest IH]; intros density h w Hs.
  - cbn. split; [reflexivity|]. split; [exact Hs|]. intros; reflexivity.
  - cbn [dot_loop forallb existsb].
    pose proof (setitem2_spec density h w (py_int y) (py_int x) 1%Q Hs) as H1.
    change (index_valid h w (x, y))
      with (in_index_range h (py_int y) && in_index_range w (py_int x)).
    destruct (setitem2 density (py_int y) (py_int x) 1%Q) as [d1|e]; cbn [bind].
    + destruct H1 as [Hv [Hs1 Hat1]]. rewrite Hv. cbn [andb].
      specialize (IH d1 h w Hs1).
      destruct (dot_loop rest d1) as [d|e].
      * destruct IH as [Hv' [Hs' Hat']]. split; [exact Hv'|]. split; [exact Hs'|].
        intros i j. rewrite Hat', Hat1.
        change (hits h w i j (x, y))
          with ((i =? wrap h (py_int y)) && (j =? wrap w (py_int x))).
        destruct ((i =? wrap h (py_int y)) && (j =? wrap w (py_int x)));
          cbn [orb]; [|reflexivity].
        destruct (existsb (hits h w i j) rest); reflexivity.
      * exact IH.
    + destruct H1 as [Hv ->]. rewrite Hv. split; reflexivity.
Qed.

Lemma removelast_3 (h w c : Z) : removelast [h; w; c] = [h; w].
Proof. reflexivity. Qed.

(** [create_dot_map] on the shape of an RGB image. *)
Lemma create_dot_map_spec (locations : list (Q * Q)) (h w c : Z) :
  0 <= h -> 0 <= w ->
  match create_dot_map locations [h; w; c] with
  | Ok d =>
      forallb (index_valid h w) locations = true
      /\ shape d = [h; w]
      /\ forall i j, at_ d [i; j]
                     = if existsb (hits h w i j) locations then 1%Q else 0%Q
  | Raise e => forallb (index_valid h w) locations = false /\ e = IndexError
  end.
Proof.
  intros Hh Hw. unfold create_dot_map. rewrite removelast_3.
  rewrite np_zeros_ok by (repeat constructor; assumption). cbn [bind].
  exact (dot_loop_spec locations (mk_ndarray [h; w] (fun _ => 0%Q)) h w eq_refl).
Qed.

Lemma wrap_nonneg (n k : Z) : 0 <= k -> wrap n k = k.
Proof. intros H. unfold wrap. destruct (Z.ltb_spec k 0); [lia|reflexivity]. Qed.

(** C9: when every point truncates into [0, width) x [0, height) the dot
    map is 1 at the truncated pixel of each point and 0 everywhere else;
    points that truncate to the same pixel leave the value 1 there. *)
Theorem create_dot_map_in_range (locations : list (Q * Q)) (h w c : Z) :
  0 <= h -> 0 <= w ->
  (forall p, In p locations ->
             0 <= py_int (fst p) < w /\ 0 <= py_int (snd p) < h) ->
  exists density,
    create_dot_map locations [h; w; c] = Ok density
    /\ shape density = [h; w]
    /\ (forall i j,
          at_ density [i; j]
          = if existsb (fun p => (py_int (snd p) =? i) && (py_int (fst p) =? j))
                       locations
            then 1%Q else 0%Q)
    /\ (forall p, In p locations ->
                  at_ density [py_int (snd p); py_int (fst p)] = 1%Q).
Proof.
  intros Hh Hw Hin.
  pose proof (create_dot_map_spec locations h w c Hh Hw) as H.
  assert (Hvalid : forallb (index_valid h w) locations = true).
  { apply forallb_forall. intros p Hp. destruct (Hin p Hp) as [Hx Hy].
    unfold index_valid, in_index_range.
    repeat (apply andb_true_iff; split);
      try (apply Z.leb_le; lia); apply Z.ltb_lt; lia. }
  assert (Hhits : forall i j,
             existsb (hits h w i j) locations
             = existsb (fun p => (py_int (snd p) =? i) && (py_int (fst p) =? j))
                       locations).
  { intros i j. clear H Hvalid. induction locations as [|p rest IH]; [reflexivity|].
    cbn [existsb]. rewrite IH by (intros q Hq; apply Hin; right; exact Hq).
    f_equal. destruct (Hin p (or_introl eq_refl)) as [Hx Hy].
    unfold hits. rewrite !wrap_nonneg by lia.
    rewrite (Z.eqb_sym i), (Z.eqb_sym j). reflexivity. }
  destruct (create_dot_map locations [h; w; c]) as [d|e].
  - destruct H as [_ [Hs Hat]]. exists d.
    split; [reflexivity|]. split; [exact Hs|].
    assert (Hat' : forall i j,
               at_ d [i; j]
               = if existsb (fun p => (py_int (snd p) =? i) && (py_int (fst p) =? j))
                            locations
                 then 1%Q else 0%Q).
    { intros i j. rewrite Hat, Hhits. reflexivity. }
    split; [exact Hat'|].
    intros p Hp. rewrite Hat'.
    replace (existsb _ locations) with true; [reflexivity|].
    symmetry. apply existsb_exists. exists p. split; [exact Hp|].
    rewrite !Z.eqb_refl. reflexivity.
  - destruct H as [H _]. rewrite Hvalid in H. discriminate.
Qed.

(** C9 on a 4 x 5 map with two points in one pixel. *)
Lemma create_dot_map_in_range_witness :
  exists density,
    create_dot_map [(5 # 2, 1 # 1); (11 # 4, 3 # 2); (0 # 1, 3 # 1)] [4; 5; 3]
    = Ok density
    /\ at_ density [1; 2] = 1%Q
    /\ at_ density [3; 0] = 1%Q
    /\ at_ density [2; 2] = 0%Q.
Proof.
  destruct (create_dot_map_in_range
              [(5 # 2, 1 # 1); (11 # 4, 3 # 2); (0 # 1, 3 # 1)] 4 5 3
              ltac:(lia) ltac:(lia)) as [d [Hd [_ [Hat _]]]].
  - intros p [<-|[<-|[<-|[]]]]; vm_compute; repeat split; discriminate.
  - exists d. split; [exact Hd|].
    rewrite !Hat. repeat split; reflexivity.
Defined.

(** C4, amended: the dot map is built by direct indexing.  When every
    point's truncated coordinates (x, y) satisfy -width <= x < width and
    -height <= y < height the result is a height x width map with 1 at
    row y (or y + height when y < 0) and column x (or x + width when
    x < 0) of every point and 0 elsewhere; when some point lies outside
    those ranges the construction raises an index error and returns no
    map. *)
Theorem create_dot_map_direct_indexing (locations : list (Q * Q)) (h w c : Z) :
  0 <= h -> 0 <= w ->
  (forallb (index_valid h w) locations = true ->
   exists density,
     create_dot_map locations [h; w; c] = Ok density
     /\ shape density = [h; w]
     /\ forall i j, at_ density [i; j]
                    = if existsb (hits h w i j) locations then 1%Q else 0%Q)
  /\ (forallb (index_valid h w) locations = false ->
      create_dot_map locations [h; w; c] = Raise IndexError).
Proof.
  intros Hh Hw.
  pose proof (create_dot_map_spec locations h w c Hh Hw) as H.
  destruct (create_dot_map locations [h; w; c]) as [d|e].
  - destruct H as [Hv [Hs Hat]]. split.
    + intros _. exists d. split; [reflexivity|]. split; assumption.
    + intros Hf. rewrite Hv in Hf. discriminate.
  - destruct H as [Hv ->]. split.
    + intros Ht. rewrite Hv in Ht. discriminate.
    + intros _. reflexivity.
Qed.

(** The amended C4 on a 10 x 10 map with one point left of the image. *)
Lemma create_dot_map_direct_indexing_witness :
  exists density,
    create_dot_map [(-3 # 2, 3 # 1); (4 # 1, 5 # 1)] [10; 10; 3] = Ok density
    /\ at_ density [3; 9] = 1%Q
    /\ at_ density [5; 4] = 1%Q
    /\ at_ density [3; 0] = 0%Q.
Proof.
  destruct (create_dot_map_direct_indexing
              [(-3 # 2, 3 # 1); (4 # 1, 5 # 1)] 10 10 3
              ltac:(lia) ltac:(lia)) as [H _].
  destruct (H eq_refl) as [d [Hd [_ Hat]]].
  exists d. split; [exact Hd|]. rewrite !Hat. repeat split; reflexivity.
Defined.

(** C4 as stated fails: on a 10 x 10 map a point at x = 12.5 is not dropped,
    the construction raises; and a point at x = -1.5 is not dropped either,
    it is written into the last column. *)
Lemma create_dot_map_out_of_range :
  create_dot_map [(25 # 2, 3 # 1)] [10; 10; 3] = Raise IndexError
  /\ exists density,
       create_dot_map [(-3 # 2, 3 # 1)] [10; 10; 3] = Ok density
       /\ shape density = [10; 10]
       /\ at_ density [3; 9] = 1%Q.
Proof.
  split; [reflexivity|].
  eexists. split; [reflexivity|]. split; reflexivity.
Qed.

(** ** Array operations of the non-overlapping tiler *)

Lemma py_floordiv_ok (a b : Z) : b <> 0 -> py_floordiv a b = Ok (a / b).
Proof.
  intros H. unfold py_floordiv. destruct (Z.eqb_spec b 0); [contradiction|reflexivity].
Qed.

Lemma slice_indices_inside (len s e : Z) :
  0 <= s -> s <= e -> e <= len -> slice_indices len s e = (s, e - s).
Proof.
  intros Hs Hse He. unfold slice_indices.
  destruct (Z.ltb_spec s 0); [lia|]. destruct (Z.ltb_spec e 0); [lia|].
  f_equal; lia.
Qed.

Lemma broadcastable_refl (l : list Z) : broadcastable l l = true.
Proof.
  induction l as [|d l IH]; [reflexivity|].
  cbn [broadcastable]. rewrite Z.eqb_refl, IH. reflexivity.
Qed.

Lemma bcast_index_2 (h w a b : Z) :
  0 <= a < h -> 0 <= b < w -> bcast_index [h; w] [a; b] = [a; b].
Proof.
  intros Ha Hb. unfold bcast_index. cbn.
  destruct (Z.eqb_spec h 1), (Z.eqb_spec w 1); repeat f_equal; lia.
Qed.

Lemma bcast_index_3 (h w c a b ch : Z) :
  0 <= a < h -> 0 <= b < w -> 0 <= ch < c ->
  bcast_index [h; w; c] [a; b; ch] = [a; b; ch].
Proof.
  intros Ha Hb Hc. unfold bcast_index. cbn.
  destruct (Z.eqb_spec h 1), (Z.eqb_spec w 1), (Z.eqb_spec c 1);
    repeat f_equal; lia.
Qed.

(** The membership test of the assigned window. *)
Lemma window_test (top h left w i j : Z) :
  (top <=? i) && (i <? top + h) && (left <=? j) && (j <? left + w) = true
  <-> (top <= i < top + h /\ left <= j < left + w).
Proof.
  rewrite !andb_true_iff, !Z.leb_le, !Z.ltb_lt. lia.
Qed.

(** Assigning a source of the window's own shape. *)
Lemma setitem_window_spec {A : Type} (a v : ndarray A)
  (H W h w top left : Z) (rest : list Z) :
  shape a = H :: W :: rest ->
  shape v = h :: w :: rest ->
  0 <= top -> 0 <= h -> top + h <= H ->
  0 <= left -> 0 <= w -> left + w <= W ->
  exists a',
    setitem_window a top (top + h) left (left + w) v = Ok a'
    /\ shape a' = H :: W :: rest
    /\ forall i j tl,
         at_ a' (i :: j :: tl)
         = if (top <=? i) && (i <? top + h) && (left <=? j) && (j <? left + w)
           then at_ v (bcast_index (h :: w :: rest) (i - top :: j - left :: tl))
           else at_ a (i :: j :: tl).
Proof.
  intros Ha Hv Ht Hh HtH Hl Hw HlW. unfold setitem_window.
  rewrite Ha, Hv.
  rewrite (slice_indices_inside H top (top + h)) by lia.
  rewrite (slice_indices_inside W left (left + w)) by lia.
  replace (top + h - top) with h by lia.
  replace (left + w - left) with w by lia.
  rewrite broadcastable_refl.
  eexists. split; [reflexivity|]. split; [reflexivity|].
  intros i j tl. reflexivity.
Qed.

(** The tile with grid coordinates (p1, p2) has index p1 * columns + p2. *)
Lemma tile_index_div_mod (p1 p2 cols : Z) :
  0 <= p2 < cols ->
  (p1 * cols + p2) / cols = p1 /\ (p1 * cols + p2) mod cols = p2.
Proof.
  intros Hp2. split.
  - symmetry. apply (Z.div_unique_pos _ _ p1 p2); lia.
  - symmetry. apply (Z.mod_unique_pos _ _ p1 p2); lia.
Qed.

Lemma rearrange_tiles_spec {A : Type} (extra : nat) (a : ndarray A)
  (H W t : Z) (rest : list Z) :
  shape a = H :: W :: rest ->
  length rest = extra ->
  0 < t -> H mod t = 0 -> W mod t = 0 ->
  exists a',
    rearrange_tiles extra a t = Ok a'
    /\ shape a' = (H / t) * (W / t) :: t :: t :: rest
    /\ forall n i j tl,
         at_ a' (n :: i :: j :: tl)
         = at_ a ((n / (W / t)) * t + i :: (n mod (W / t)) * t + j :: tl).
Proof.
  intros Ha Hlen Ht HH HW. unfold rearrange_tiles. rewrite Ha, Hlen.
  rewrite Nat.eqb_refl. cbn [negb].
  destruct (Z.leb_spec t 0); [lia|]. rewrite HH, HW. cbn [Z.eqb negb orb].
  eexists. split; [reflexivity|]. split; [reflexivity|].
  intros n i j tl. reflexivity.
Qed.

(** ** Non-overlapping tiling *)

Lemma padded_extent_multiple (n t : Z) : 0 < t -> (t | padded_extent n t).
Proof. intros _. unfold padded_extent. apply Z.divide_factor_r. Qed.

Lemma padded_extent_bounds (n t : Z) :
  0 < t -> n <= padded_extent n t < n + t.
Proof.
  intros Ht. unfold padded_extent.
  pose proof (Z.mul_div_le (n - 1 + t) t Ht).
  pose proof (Z.mul_succ_div_gt (n - 1 + t) t Ht).
  lia.
Qed.

Lemma padded_extent_least (n t m : Z) :
  0 < t -> (t | m) -> n <= m -> padded_extent n t <= m.
Proof.
  intros Ht [k ->] Hn.
  destruct (padded_extent_multiple n t Ht) as [q Hq].
  pose proof (padded_extent_bounds n t Ht) as Hb. rewrite Hq in *.
  assert (q < k + 1) by nia. nia.
Qed.

(** C2: non-overlapping mode pads each dimension to the smallest multiple of
    the tile size that is >= the source dimension, places the source at
    offset floor(pad / 2) in a canvas of zeros (so an odd pad leaves its
    extra pixel on the high side), and cuts the canvas into T x T tiles in
    row-major order, the image with the density's offsets; a 300 x 300
    density with T = 256 is padded to 512 x 512, placed at (106, 106) and
    cut into 4 tiles. *)
Theorem create_non_overlapping_crops_grid (image : ndarray Z)
  (density : ndarray Q) (t h w c : Z) :
  0 < t -> 0 <= h -> 0 <= w -> 0 <= c ->
  shape density = [h; w] ->
  shape image = [h; w; c] ->
  let H := padded_extent h t in
  let W := padded_extent w t in
  let top := (H - h) / 2 in
  let left := (W - w) / 2 in
  ((t | H) /\ h <= H /\ forall m, (t | m) -> h <= m -> H <= m)
  /\ ((t | W) /\ w <= W /\ forall m, (t | m) -> w <= m -> W <= m)
  /\ (0 <= top /\ H - (top + h) = top + (H - h) mod 2)
  /\ (0 <= left /\ W - (left + w) = left + (W - w) mod 2)
  /\ (exists tiles_image tiles_density,
        create_non_overlapping_crops image density t
        = Ok (tiles_image, tiles_density)
        /\ shape tiles_density = [(H / t) * (W / t); t; t]
        /\ shape tiles_image = [(H / t) * (W / t); t; t; c]
        /\ forall p1 p2 a b,
             0 <= p1 < H / t -> 0 <= p2 < W / t -> 0 <= a < t -> 0 <= b < t ->
             let i := p1 * t + a in
             let j := p2 * t + b in
             let inside :=
               (top <=? i) && (i <? top + h) && (left <=? j) && (j <? left + w) in
             at_ tiles_density [p1 * (W / t) + p2; a; b]
             = (if inside then at_ density [i - top; j - left] else 0%Q)
             /\ forall ch, 0 <= ch < c ->
                  at_ tiles_image [p1 * (W / t) + p2; a; b; ch]
                  = (if inside then at_ image [i - top; j - left; ch] else 0))
  /\ (t = 256 -> h = 300 -> w = 300 ->
      H = 512 /\ W = 512 /\ top = 106 /\ left = 106 /\ (H / t) * (W / t) = 4).
Proof.
  intros Ht Hh Hw Hc Hden Himg H W top left.
  pose proof (padded_extent_bounds h t Ht) as HbH.
  pose proof (padded_extent_bounds w t Ht) as HbW.
  pose proof (padded_extent_multiple h t Ht) as HdH.
  pose proof (padded_extent_multiple w t Ht) as HdW.
  fold H in HbH, HdH. fold W in HbW, HdW.
  assert (Htop : 0 <= top /\ H - (top + h) = top + (H - h) mod 2).
  { unfold top. pose proof (Z.div_mod (H - h) 2 ltac:(lia)).
    pose proof (Z.mod_pos_bound (H - h) 2 ltac:(lia)).
    split; [apply Z.div_pos; lia|lia]. }
  assert (Hleft : 0 <= left /\ W - (left + w) = left + (W - w) mod 2).
  { unfold left. pose proof (Z.div_mod (W - w) 2 ltac:(lia)).
    pose proof (Z.mod_pos_bound (W - w) 2 ltac:(lia)).
    split; [apply Z.div_pos; lia|lia]. }
  assert (HtopH : top + h <= H).
  { pose proof (Z.mod_pos_bound (H - h) 2 ltac:(lia)). lia. }
  assert (HleftW : left + w <= W).
  { pose proof (Z.mod_pos_bound (W - w) 2 ltac:(lia)). lia. }
  split; [|split; [|split; [|split; [|split]]]].
  - split; [exact HdH|]. split; [lia|]. intros m. apply padded_extent_least, Ht.
  - split; [exact HdW|]. split; [lia|]. intros m. apply padded_extent_least, Ht.
  - exact Htop.
  - exact Hleft.
  - unfold create_non_overlapping_crops. rewrite Hden.
    rewrite !py_floordiv_ok by lia. cbn [bind].
    change ((h - 1 + t) / t * t) with H. change ((w - 1 + t) / t * t) with W.
    rewrite np_zeros_ok by (repeat constructor; lia). cbn [bind].
    rewrite Himg.
    change (list_getitem [h; w; c] (-1)) with (Ok c). cbn [bind].
    rewrite np_zeros_ok by (repeat constructor; lia). cbn [bind].
    fold top. fold left.
    destruct (setitem_window_spec
                (mk_ndarray [H; W] (fun _ => 0%Q)) density H W h w top left []
                eq_refl Hden) as [pd [Epd [Spd Apd]]]; try lia.
    rewrite Epd. cbn [bind].
    destruct (setitem_window_spec
                (mk_ndarray [H; W; c] (fun _ => 0)) image H W h w top left [c]
                eq_refl Himg) as [pi [Epi [Spi Api]]]; try lia.
    rewrite Epi. cbn [bind].
    destruct (rearrange_tiles_spec 0 pd H W t [] Spd eq_refl Ht)
      as [td [Etd [Std Atd]]];
      try (apply Z.mod_divide; [lia|assumption]).
    rewrite Etd. cbn [bind].
    destruct (rearrange_tiles_spec 1 pi H W t [c] Spi eq_refl Ht)
      as [ti [Eti [Sti Ati]]];
      try (apply Z.mod_divide; [lia|assumption]).
    rewrite Eti. cbn [bind].
    exists ti, td. split; [reflexivity|]. split; [exact Std|]. split; [exact Sti|].
    intros p1 p2 a b Hp1 Hp2 Ha Hb. cbv zeta.
    destruct (tile_index_div_mod p1 p2 (W / t) Hp2) as [Ediv Emod].
    split.
    + rewrite Atd, Ediv, Emod, Apd.
      match goal with |- (if ?b then _ else _) = _ => destruct b eqn:Ein end;
        [|reflexivity].
      apply window_test in Ein.
      rewrite bcast_index_2 by lia. reflexivity.
    + intros ch Hch.
      rewrite Ati, Ediv, Emod, Api.
      match goal with |- (if ?b then _ else _) = _ => destruct b eqn:Ein end;
        [|reflexivity].
      apply window_test in Ein.
      rewrite bcast_index_3 by lia. reflexivity.
  - intros -> -> ->. repeat split; reflexivity.
Qed.

(** Bounds between closed integers. *)
Ltac closed_range :=
  vm_compute; split;
  first [reflexivity | let H := fresh in intro H; discriminate H].

(** C2 on a 300 x 300 density of ones with T = 256. *)
Lemma create_non_overlapping_crops_grid_witness :
  exists tiles_image tiles_density,
    create_non_overlapping_crops (constant_array [300; 300; 3] 7)
      (constant_array [300; 300] 1%Q) 256
    = Ok (tiles_image, tiles_density)
    /\ shape tiles_density = [4; 256; 256]
    /\ shape tiles_image = [4; 256; 256; 3]
    /\ at_ tiles_density [0; 106; 106] = 1%Q
    /\ at_ tiles_density [0; 105; 106] = 0%Q
    /\ at_ tiles_density [3; 149; 149] = 1%Q
    /\ at_ tiles_density [3; 150; 149] = 0%Q.
Proof.
  destruct (create_non_overlapping_crops_grid
              (constant_array [300; 300; 3] 7) (constant_array [300; 300] 1%Q)
              256 300 300 3 ltac:(lia) ltac:(lia) ltac:(lia) ltac:(lia)
              eq_refl eq_refl)
    as [_ [_ [_ [_ [[ti [td [E [Sd [Si Hat]]]]] _]]]]].
  exists ti, td. split; [exact E|]. split; [exact Sd|]. split; [exact Si|].
  split; [|split; [|split]].
  - refine (proj1 (Hat 0 0 106 106 _ _ _ _)); closed_range.
  - refine (proj1 (Hat 0 0 105 106 _ _ _ _)); closed_range.
  - refine (proj1 (Hat 1 1 149 149 _ _ _ _)); closed_range.
  - refine (proj1 (Hat 1 1 150 149 _ _ _ _)); closed_range.
Defined.

(** ** The density field of the driver *)

Lemma transpose_120_shape {A : Type} (a b : ndarray A) :
  transpose_120 a = Ok b ->
  exists s0 s1 s2, shape a = [s0; s1; s2] /\ shape b = [s1; s2; s0].
Proof.
  unfold transpose_120. intros H.
  destruct (shape a) as [|s0 [|s1 [|s2 [|s3 rest]]]]; try discriminate.
  injection H as <-. exists s0, s1, s2. split; reflexivity.
Qed.

Lemma stack_shape {A : Type} (e : exn) (arrays : list (ndarray A)) (b : ndarray A) :
  stack e arrays = Ok b ->
  arrays <> [] /\ exists s, shape b = Z.of_nat (length arrays) :: s.
Proof.
  unfold stack. intros H. destruct arrays as [|a0 rest]; [discriminate|].
  destruct (forallb _ rest); [|discriminate].
  injection H as <-. split; [discriminate|]. exists (shape a0). reflexivity.
Qed.

Lemma mapM_length {A B : Type} (f : A -> result B) (l : list A) (bs : list B) :
  mapM f l = Ok bs -> length bs = length l.
Proof.
  revert bs. induction l as [|a l IH]; intros bs H.
  - injection H as <-. reflexivity.
  - cbn [mapM] in H. destruct (f a); [|discriminate]. cbn [bind] in H.
    destruct (mapM f l) as [bs'|]; [|discriminate]. cbn [bind] in H.
    injection H as <-. cbn [length]. f_equal. apply IH. reflexivity.
Qed.

(** Whenever the driver produces a density field, it has three axes and one
    channel per kernel. *)
Lemma main_density_shape (kernel_list : list (ndarray Q))
  (locations : list (Q * Q)) (image_shape : list Z) (density : ndarray Q) :
  main_density kernel_list locations image_shape = Ok density ->
  kernel_list <> []
  /\ exists h w, shape density = [h; w; Z.of_nat (length kernel_list)].
Proof.
  unfold main_density. intros H.
  destruct (create_dot_map locations image_shape) as [dots|]; [|discriminate].
  cbn [bind] in H.
  destruct (mapM _ kernel_list) as [maps|] eqn:Em; [|discriminate].
  cbn [bind] in H.
  destruct (stack RuntimeError maps) as [stacked|] eqn:Es; [|discriminate].
  cbn [bind] in H.
  destruct (stack_shape _ _ _ Es) as [Hne [s Hs]].
  destruct (transpose_120_shape _ _ H) as [s0 [s1 [s2 [Ha Hb]]]].
  rewrite Hs in Ha. injection Ha as <- _.
  pose proof (mapM_length _ _ _ Em) as Hlen.
  split.
  - intros ->. destruct maps; [contradiction|discriminate].
  - exists s1, s2. rewrite Hb, Hlen. reflexivity.
Qed.

(** C10: non-overlapping tiling unpacks the density's shape into two
    values, so it raises on every three-axis density field, and the density
    field the driver builds always has three axes (height x width x K, with
    K >= 1 kernels): on it the call raises and returns no tiles. *)
Theorem create_non_overlapping_crops_rejects_channels (image : ndarray Z)
  (density : ndarray Q) (image_size : Z) :
  (forall h w k, shape density = [h; w; k] ->
     create_non_overlapping_crops image density image_size = Raise ValueError)
  /\ (forall kernel_list locations image_shape,
        main_density kernel_list locations image_shape = Ok density ->
        kernel_list <> []
        /\ (exists h w, shape density = [h; w; Z.of_nat (length kernel_list)])
        /\ create_non_overlapping_crops image density image_size
           = Raise ValueError).
Proof.
  assert (H3 : forall h w k, shape density = [h; w; k] ->
               create_non_overlapping_crops image density image_size
               = Raise ValueError).
  { intros h w k Hs. unfold create_non_overlapping_crops. rewrite Hs. reflexivity. }
  split; [exact H3|].
  intros kernel_list locations image_shape Hd.
  destruct (main_density_shape _ _ _ _ Hd) as [Hne [h [w Hs]]].
  split; [exact Hne|]. split; [exists h, w; exact Hs|].
  exact (H3 _ _ _ Hs).
Qed.

(** C10 on the density field of a 4 x 5 image with one kernel. *)
Lemma create_non_overlapping_crops_rejects_channels_witness :
  exists density,
    main_density [binomial_kernel] [(3 # 2, 1 # 1)] [4; 5; 3] = Ok density
    /\ shape density = [4; 5; 1]
    /\ create_non_overlapping_crops (constant_array [4; 5; 3] 7) density 2
       = Raise ValueError.
Proof.
  eexists. split; [reflexivity|]. split; [reflexivity|].
  eapply (proj1 (create_non_overlapping_crops_rejects_channels _ _ _)).
  reflexivity.
Defined.

(** ** Crop stacking *)

Lemma shape_eqb_eq (s1 s2 : list Z) : shape_eqb s1 s2 = true <-> s1 = s2.
Proof.
  unfold shape_eqb. destruct (list_eq_dec Z.eq_dec s1 s2); split; congruence.
Qed.

(** Stacking succeeds exactly on a non-empty list of arrays of one shape. *)
Lemma stack_ok_iff {A : Type} (e : exn) (arrays : list (ndarray A)) :
  is_ok (stack e arrays) = true
  <-> arrays <> []
      /\ forall a b, In a arrays -> In b arrays -> shape a = shape b.
Proof.
  unfold stack. destruct arrays as [|a0 rest].
  - cbn. split; [discriminate|]. intros [H _]. contradiction.
  - destruct (forallb _ rest) eqn:E; cbn [is_ok].
    + split; [|reflexivity]. intros _. split; [discriminate|].
      rewrite forallb_forall in E.
      assert (H0 : forall a, In a (a0 :: rest) -> shape a = shape a0).
      { intros a [<-|Ha]; [reflexivity|]. apply shape_eqb_eq, E, Ha. }
      intros a b Ha Hb. rewrite (H0 a Ha), (H0 b Hb). reflexivity.
    + split; [discriminate|]. intros [_ H]. exfalso.
      assert (Et : forallb (fun a => shape_eqb (shape a) (shape a0)) rest = true).
      { apply forallb_forall. intros a Ha. apply shape_eqb_eq.
        apply H; [right; exact Ha|left; reflexivity]. }
      rewrite Et in E. discriminate.
Qed.

Lemma stack_raises {A : Type} (e : exn) (arrays : list (ndarray A)) (e' : exn) :
  stack e arrays = Raise e' -> e' = e.
Proof.
  unfold stack. destruct arrays as [|a0 rest]; [congruence|].
  destruct (forallb _ rest); congruence.
Qed.

(** Slicing an array of at least three axes never raises. *)
Lemma getitem_window_ok {A : Type} (a : ndarray A) (r0 r1 c0 c1 : Z) :
  (3 <= length (shape a))%nat ->
  exists crop, getitem_window a r0 r1 c0 c1 = Ok crop.
Proof.
  unfold getitem_window. intros H.
  destruct (shape a) as [|n0 [|n1 [|n2 rest]]]; cbn [length] in H; try lia.
  destruct (slice_indices n0 r0 r1), (slice_indices n1 c0 c1).
  eexists. reflexivity.
Qed.

Lemma mapM_total {A B : Type} (f : A -> result B) (l : list A) :
  (forall a, In a l -> exists b, f a = Ok b) ->
  exists bs, mapM f l = Ok bs /\ length bs = length l.
Proof.
  induction l as [|a l IH]; intros H.
  - exists []. split; reflexivity.
  - destruct (H a (or_introl eq_refl)) as [b Hb].
    destruct IH as [bs [Hbs Hlen]]; [intros x Hx; apply H; right; exact Hx|].
    exists (b :: bs). cbn [mapM]. rewrite Hb, Hbs. cbn. split; [reflexivity|].
    f_equal. exact Hlen.
Qed.

Lemma collect_crops_ok {A : Type} (image : ndarray A)
  (x_start y_start : list Z) (crop_size : Z) :
  (3 <= length (shape image))%nat ->
  exists crops,
    collect_crops image x_start y_start crop_size = Ok crops
    /\ length crops = (length y_start * length x_start)%nat.
Proof.
  intros H. unfold collect_crops.
  destruct (mapM_total
              (fun ij => getitem_window image (fst ij) (fst ij + crop_size)
                                              (snd ij) (snd ij + crop_size))
              (flat_map (fun i => map (fun j => (i, j)) x_start) y_start))
    as [crops [Hc Hlen]].
  - intros ij _. apply getitem_window_ok, H.
  - exists crops. split; [exact Hc|]. rewrite Hlen.
    clear. induction y_start as [|i ys IH]; [reflexivity|].
    cbn [flat_map length]. rewrite length_app, length_map, IH. reflexivity.
Qed.

(** C6, amended: when the crops cannot be stacked (some crop's shape
    differs from another's, or there is no crop) the crop-stacking step
    raises nothing: it prints the image's shape and every crop's shape and
    returns the unstacked list of crops; when all crops have one shape it
    returns them stacked and prints nothing. *)
Theorem arrange_crops_never_raises {A : Type} (image : ndarray A)
  (x_start y_start : list Z) (crop_size : Z) :
  (3 <= length (shape image))%nat ->
  exists crops,
    collect_crops image x_start y_start crop_size = Ok crops
    /\ length crops = (length y_start * length x_start)%nat
    /\ ((crops = [] \/ exists a b, In a crops /\ In b crops /\ shape a <> shape b) ->
        arrange_crops image x_start y_start crop_size
        = Ok (shape image :: map shape crops, Unstacked crops))
    /\ (crops <> [] ->
        (forall a b, In a crops -> In b crops -> shape a = shape b) ->
        exists stacked,
          stack ValueError crops = Ok stacked
          /\ arrange_crops image x_start y_start crop_size
             = Ok ([], Stacked stacked)).
Proof.
  intros H3.
  destruct (collect_crops_ok image x_start y_start crop_size H3)
    as [crops [Hc Hlen]].
  exists crops. split; [exact Hc|]. split; [exact Hlen|].
  unfold arrange_crops. rewrite Hc. cbn [bind].
  pose proof (stack_ok_iff ValueError crops) as Hiff.
  split.
  - intros Hbad.
    destruct (stack ValueError crops) as [stacked|e] eqn:Es.
    + exfalso. destruct (proj1 Hiff eq_refl) as [Hne Hall].
      destruct Hbad as [->|[a [b [Ha [Hb Hab]]]]]; [contradiction|].
      apply Hab, Hall; assumption.
    + rewrite (stack_raises _ _ _ Es). reflexivity.
  - intros Hne Hall.
    destruct (stack ValueError crops) as [stacked|e] eqn:Es.
    + exists stacked. split; reflexivity.
    + cbn [is_ok] in Hiff. destruct Hiff as [_ Hiff].
      specialize (Hiff (conj Hne Hall)). discriminate.
Qed.

(** The amended C6 on a 2 x 3 x 1 image whose second crop is clipped. *)
Lemma arrange_crops_never_raises_witness :
  exists crops,
    arrange_crops (constant_array [2; 3; 1] 5) [0; 2] [0] 2
    = Ok ([[2; 3; 1]; [2; 2; 1]; [2; 1; 1]], Unstacked crops)
    /\ map shape crops = [[2; 2; 1]; [2; 1; 1]].
Proof.
  destruct (arrange_crops_never_raises (constant_array [2; 3; 1] 5) [0; 2] [0] 2
              ltac:(cbn; lia)) as [crops [Hc [_ [Hbad _]]]].
  exists crops.
  assert (Hs : map shape crops = [[2; 2; 1]; [2; 1; 1]]).
  { cbv in Hc. injection Hc as <-. reflexivity. }
  split; [|exact Hs].
  rewrite Hbad.
  - rewrite Hs. reflexivity.
  - right. destruct crops as [|a [|b rest]]; try discriminate.
    exists a, b. split; [left; reflexivity|]. split; [right; left; reflexivity|].
    injection Hs as Ha Hb _. rewrite Ha, Hb. discriminate.
Defined.

(** C6 as stated fails: on a 2 x 3 x 1 image with column offsets 0 and 2
    and crop size 2 the crops have shapes 2 x 2 x 1 and 2 x 1 x 1, and the
    step returns the list of crops instead of raising. *)
Lemma arrange_crops_returns_unstacked :
  exists crops,
    arrange_crops (constant_array [2; 3; 1] 5) [0; 2] [0] 2
    = Ok ([[2; 3; 1]; [2; 2; 1]; [2; 1; 1]], Unstacked crops)
    /\ map shape crops = [[2; 2; 1]; [2; 1; 1]].
Proof.
  eexists. split; reflexivity.
Qed.

(** ** Kernel construction *)

Section KernelConstruction.
Variable gaussian_filter : ndarray Q -> Q -> ndarray Q.

(** A kernel is built for every size >= 1, whatever the sigma; size 0
    fails on the write of the centre, a negative size on the
    allocation. *)
Lemma create_density_kernel_spec (kernel_size : Z) (sigma : Q) :
  create_density_kernel gaussian_filter kernel_size sigma
  = if 1 <=? kernel_size then Ok (gaussian_filter (impulse kernel_size) sigma)
    else if kernel_size =? 0 then Raise IndexError
    else Raise ValueError.
Proof.
  unfold create_density_kernel, np_zeros. cbn [forallb].
  destruct (Z.leb_spec 1 kernel_size) as [Hk|Hk].
  - destruct (Z.leb_spec 0 kernel_size); [|lia]. cbn [andb bind].
    unfold setitem2. cbn [shape bind]. rewrite norm_index_spec.
    assert (Hmid : 0 <= kernel_size / 2 < kernel_size).
    { split; [apply Z.div_pos; lia|apply Z.div_lt_upper_bound; lia]. }
    replace (in_index_range kernel_size (kernel_size / 2)) with true.
    + cbn [bind]. rewrite wrap_nonneg by lia. reflexivity.
    + symmetry. unfold in_index_range. apply andb_true_iff.
      rewrite Z.leb_le, Z.ltb_lt. lia.
  - destruct (Z.eqb_spec kernel_size 0) as [->|Hne]; [reflexivity|].
    destruct (Z.leb_spec 0 kernel_size); [lia|]. cbn [andb bind]. reflexivity.
Qed.

Lemma list_getitem_nth {A : Type} (l : list A) (i : nat) :
  list_getitem l (Z.of_nat i)
  = match nth_error l i with
    | Some a => Ok a
    | None => Raise IndexError
    end.
Proof.
  unfold list_getitem.
  destruct (Z.ltb_spec (Z.of_nat i) 0); [lia|].
  destruct (Z.ltb_spec (Z.of_nat i) 0); [lia|].
  rewrite Nat2Z.id. reflexivity.
Qed.

(** The indexed comprehension of [main], started at position [off]. *)
Lemma main_kernel_list_from (sizes : list Z) (sigmas : list Q) :
  forall (done_sizes : list Z) (done_sigmas : list Q),
    length done_sizes = length done_sigmas ->
    mapM (fun index =>
            kernel_size <- list_getitem (done_sizes ++ sizes) index ;;
            sigma <- list_getitem (done_sigmas ++ sigmas) index ;;
            create_density_kernel gaussian_filter kernel_size sigma)
         (map Z.of_nat (seq (length done_sigmas) (length sigmas)))
    = pairwise_kernels gaussian_filter sizes sigmas.
Proof.
  revert sizes. induction sigmas as [|sigma sigmas IH];
    intros sizes done_sizes done_sigmas Hlen; [reflexivity|].
  cbn [length seq map mapM pairwise_kernels].
  rewrite !list_getitem_nth.
  rewrite (nth_error_app2 done_sizes) by lia.
  rewrite (nth_error_app2 done_sigmas) by lia.
  rewrite Hlen, Nat.sub_diag.
  destruct sizes as [|kernel_size sizes]; [reflexivity|].
  cbn [nth_error bind].
  destruct (create_density_kernel gaussian_filter kernel_size sigma);
    [|reflexivity].
  cbn [bind].
  specialize (IH sizes (done_sizes ++ [kernel_size]) (done_sigmas ++ [sigma])).
  rewrite <- !app_assoc in IH. cbn [app] in IH.
  rewrite !length_app in IH. cbn [length] in IH.
  replace (length done_sigmas + 1)%nat with (S (length done_sigmas)) in IH by lia.
  rewrite IH by lia. reflexivity.
Qed.

Lemma main_kernel_list_pairwise (sizes : list Z) (sigmas : list Q) :
  main_kernel_list gaussian_filter sizes sigmas
  = pairwise_kernels gaussian_filter sizes sigmas.
Proof.
  unfold main_kernel_list, zrange. rewrite Nat2Z.id.
  exact (main_kernel_list_from sizes sigmas [] [] eq_refl).
Qed.

Lemma pairwise_kernels_spec (sizes : list Z) (sigmas : list Q) :
  if kernel_sizes_usable sizes sigmas
  then pairwise_kernels gaussian_filter sizes sigmas
       = Ok (map (fun ks => gaussian_filter (impulse (fst ks)) (snd ks))
                 (combine sizes sigmas))
  else exists e, pairwise_kernels gaussian_filter sizes sigmas = Raise e
                 /\ (e = ValueError \/ e = IndexError).
Proof.
  revert sizes. induction sigmas as [|sigma sigmas IH]; intros sizes.
  - destruct sizes; reflexivity.
  - destruct sizes as [|kernel_size sizes].
    + cbn. exists IndexError. split; [reflexivity|right; reflexivity].
    + specialize (IH sizes). unfold kernel_sizes_usable in *.
      cbn [length firstn forallb pairwise_kernels combine map fst snd].
      change (S (length sigmas) <=? S (length sizes))%nat
        with (length sigmas <=? length sizes)%nat.
      rewrite create_density_kernel_spec.
      destruct (Z.leb_spec 1 kernel_size) as [Hk|Hk].
      * cbn [bind andb].
        destruct ((length sigmas <=? length sizes)%nat
                  && forallb (fun k => 1 <=? k) (firstn (length sigmas) sizes)).
        -- rewrite IH. reflexivity.
        -- destruct IH as [e [-> He]]. exists e. split; [reflexivity|exact He].
      * rewrite Bool.andb_false_r.
        destruct (kernel_size =? 0).
        -- exists IndexError. split; [reflexivity|right; reflexivity].
        -- exists ValueError. split; [reflexivity|left; reflexivity].
Qed.
End KernelConstruction.

(** C5, amended: kernel construction validates nothing and raises no
    ConfigError.  It builds one kernel per sigma from the kernel size at the
    same position; it succeeds exactly when every sigma has a kernel size at
    its position and that size is at least 1, whatever the sigmas and
    whatever kernel sizes are left over; otherwise it stops with the array
    library's ValueError or IndexError and produces no kernel.  The argument
    lists are whatever the tokens convert to. *)
Theorem main_kernel_list_unvalidated
  (gaussian_filter : ndarray Q -> Q -> ndarray Q)
  (kernel_size_list : list Z) (sigma_list : list Q) :
  is_ok (main_kernel_list gaussian_filter kernel_size_list sigma_list)
  = kernel_sizes_usable kernel_size_list sigma_list
  /\ (kernel_sizes_usable kernel_size_list sigma_list = true ->
      main_kernel_list gaussian_filter kernel_size_list sigma_list
      = Ok (map (fun ks => gaussian_filter (impulse (fst ks)) (snd ks))
                (combine kernel_size_list sigma_list))
      /\ length (combine kernel_size_list sigma_list) = length sigma_list)
  /\ (kernel_sizes_usable kernel_size_list sigma_list = false ->
      exists e,
        main_kernel_list gaussian_filter kernel_size_list sigma_list = Raise e
        /\ (e = ValueError \/ e = IndexError))
  /\ (forall (token : Type) (py_int_of_token : token -> result Z)
             (py_float_of_token : token -> result Q) kernel_size sigma,
        mapM py_int_of_token kernel_size = Ok kernel_size_list ->
        mapM py_float_of_token sigma = Ok sigma_list ->
        get_kernel_and_sigma_list py_int_of_token py_float_of_token
          kernel_size sigma
        = Ok (kernel_size_list, sigma_list)).
Proof.
  rewrite main_kernel_list_pairwise.
  pose proof (pairwise_kernels_spec gaussian_filter kernel_size_list sigma_list)
    as H.
  destruct (kernel_sizes_usable kernel_size_list sigma_list) eqn:E.
  - rewrite H. split; [reflexivity|]. split; [|split].
    + intros _. split; [reflexivity|].
      rewrite length_combine. unfold kernel_sizes_usable in E.
      apply andb_true_iff in E. destruct E as [E _].
      apply Nat.leb_le in E. lia.
    + discriminate.
    + intros token pi pf ks ss Hk Hs. unfold get_kernel_and_sigma_list.
      rewrite Hk, Hs. reflexivity.
  - destruct H as [e [He Hor]]. rewrite He. split; [reflexivity|].
    split; [discriminate|]. split.
    + intros _. exists e. split; [reflexivity|exact Hor].
    + intros token pi pf ks ss Hk Hs. unfold get_kernel_and_sigma_list.
      rewrite Hk, Hs. reflexivity.
Qed.

(** C5 as stated fails: with kernel sizes [3, 5] and sigmas [1] the lists
    differ in length and one kernel is produced; with sigma -1 a kernel is
    produced; with kernel sizes [3, -5] and sigmas [1] a kernel is
    produced. *)
Lemma main_kernel_list_accepts_invalid :
  (length [3; 5] <> length [1%Q]
   /\ forall gaussian_filter,
        main_kernel_list gaussian_filter [3; 5] [1%Q]
        = Ok [gaussian_filter (impulse 3) 1%Q])
  /\ ((-1 <= 0)%Q
      /\ forall gaussian_filter,
           main_kernel_list gaussian_filter [3] [(-1)%Q]
           = Ok [gaussian_filter (impulse 3) (-1)%Q])
  /\ (-5 <= 0
      /\ forall gaussian_filter,
           main_kernel_list gaussian_filter [3; -5] [1%Q]
           = Ok [gaussian_filter (impulse 3) 1%Q]).
Proof.
  split; [|split].
  - split; [discriminate|]. intros gf. reflexivity.
  - split; [discriminate|]. intros gf. reflexivity.
  - split; [lia|]. intros gf. reflexivity.
Qed.

(** ** Sums of rationals *)

Lemma Qsum_nil : Qsum [] = 0%Q.
Proof. reflexivity. Qed.

Lemma Qsum_cons (x : Q) (l : list Q) : Qsum (x :: l) = (x + Qsum l)%Q.
Proof. reflexivity. Qed.

Lemma Qsum_app (l1 l2 : list Q) : Qsum (l1 ++ l2) == Qsum l1 + Qsum l2.
Proof.
  induction l1 as [|x l1 IH]; cbn [app].
  - rewrite Qsum_nil. ring.
  - rewrite !Qsum_cons, IH. ring.
Qed.

Section SumsOverLists.
Context {A : Type}.

Lemma Qsum_map_ext (f g : A -> Q) (l : list A) :
  (forall x, In x l -> f x == g x) -> Qsum (map f l) == Qsum (map g l).
Proof.
  induction l as [|x l IH]; intros H; [reflexivity|].
  cbn [map]. rewrite !Qsum_cons.
  rewrite (H x (or_introl eq_refl)), IH; [reflexivity|].
  intros y Hy. apply H. right. exact Hy.
Qed.


Lemma Qsum_map_zero (l : list A) : Qsum (map (fun _ => 0%Q) l) == 0.
Proof.
  induction l as [|x l IH]; [reflexivity|].
  cbn [map]. rewrite Qsum_cons, IH. ring.
Qed.


Lemma Qsum_map_add (f g : A -> Q) (l : list A) :
  Qsum (map (fun x => f x + g x)%Q l) == Qsum (map f l) + Qsum (map g l).
Proof.
  induction l as [|x l IH]; cbn [map].
  - rewrite Qsum_nil. ring.
  - rewrite !Qsum_cons, IH. ring.
Qed.



Lemma Qsum_map_guard (b : bool) (f : A -> Q) (l : list A) :
  Qsum (map (fun x => if b then f x else 0%Q) l)
  == if b then Qsum (map f l) else 0.
Proof.
  destruct b; [reflexivity|apply Qsum_map_zero].
Qed.
End SumsOverLists.

Lemma Qsum_map_swap {A B : Type} (F : A -> B -> Q) (la : list A) (lb : list B) :
  Qsum (map (fun a => Qsum (map (F a) lb)) la)
  == Qsum (map (fun b => Qsum (map (fun a => F a b) la)) lb).
Proof.
  induction la as [|a la IH]; cbn [map].
  - rewrite Qsum_nil. symmetry. apply Qsum_map_zero.
  - rewrite Qsum_cons, IH.
    rewrite <- Qsum_map_add. apply Qsum_map_ext. intros b _.
    rewrite Qsum_cons. reflexivity.
Qed.


Lemma in_zrange (n i : Z) : In i (zrange n) <-> 0 <= i < n.
Proof.
  unfold zrange. rewrite in_map_iff. split.
  - intros [k [<- Hk]]. apply in_seq in Hk. lia.
  - intros H. exists (Z.to_nat i). split; [lia|]. apply in_seq. lia.
Qed.

Lemma zrange_succ (n : nat) :
  zrange (Z.of_nat (S n)) = zrange (Z.of_nat n) ++ [Z.of_nat n].
Proof.
  unfold zrange. rewrite !Nat2Z.id, seq_S, map_app. reflexivity.
Qed.

Lemma zrange_nonpos (n : Z) : n <= 0 -> zrange n = [].
Proof.
  intros H. unfold zrange. replace (Z.to_nat n) with 0%nat by lia. reflexivity.
Qed.

(** The sum of a function that vanishes off one index. *)
Lemma sum_over_delta (m t : Z) (v : Q) :
  sum_over m (fun a => if a =? t then v else 0%Q)
  == if (0 <=? t) && (t <? m) then v else 0.
Proof.
  unfold sum_over.
  destruct (Z.leb_spec m 0) as [Hm|Hm].
  - rewrite zrange_nonpos by exact Hm. cbn.
    destruct (Z.leb_spec 0 t), (Z.ltb_spec t m); cbn [andb]; try reflexivity.
    lia.
  - rewrite <- (Z2Nat.id m) by lia.
    induction (Z.to_nat m) as [|n IH].
    + cbn. destruct (Z.leb_spec 0 t), (Z.ltb_spec t 0); cbn [andb];
        try reflexivity. lia.
    + rewrite zrange_succ, map_app, Qsum_app, IH. cbn [map].
      rewrite Qsum_cons, Qsum_nil.
      destruct (Z.leb_spec 0 t); cbn [andb].
      * destruct (Z.eqb_spec (Z.of_nat n) t), (Z.ltb_spec t (Z.of_nat n)),
          (Z.ltb_spec t (Z.of_nat (S n))); try lia; ring.
      * destruct (Z.eqb_spec (Z.of_nat n) t); [lia|]. ring.
Qed.

(** Shifting the index of a sum whose terms vanish outside [0, m). *)
Lemma sum_over_shift (n m c : Z) (f : Z -> Q) :
  sum_over n (fun i => if (0 <=? i + c) && (i + c <? m) then f (i + c) else 0%Q)
  == sum_over m (fun a => if (0 <=? a - c) && (a - c <? n) then f a else 0%Q).
Proof.
  transitivity
    (sum_over n (fun i => sum_over m (fun a => if a =? i + c then f a else 0%Q))).
  - apply Qsum_map_ext. intros i _.
    rewrite <- (sum_over_delta m (i + c) (f (i + c))).
    apply Qsum_map_ext. intros a _.
    destruct (Z.eqb_spec a (i + c)) as [->|]; reflexivity.
  - unfold sum_over at 1 2. rewrite Qsum_map_swap.
    apply Qsum_map_ext. intros a _.
    rewrite <- (sum_over_delta n (a - c) (f a)).
    apply Qsum_map_ext. intros i _.
    destruct (Z.eqb_spec a (i + c)), (Z.eqb_spec i (a - c)); try lia; reflexivity.
Qed.


Lemma sum_over_shift_eq (n m c : Z) (f : Z -> Q) :
  (forall a, 0 <= a < m -> a - c < 0 \/ n <= a - c -> f a == 0) ->
  sum_over n (fun i => if (0 <=? i + c) && (i + c <? m) then f (i + c) else 0%Q)
  == sum_over m f.
Proof.
  intros Hf. rewrite sum_over_shift. apply Qsum_map_ext.
  intros a Ha. apply in_zrange in Ha.
  destruct (Z.leb_spec 0 (a - c)), (Z.ltb_spec (a - c) n); cbn [andb];
    try reflexivity; symmetry; apply Hf; try exact Ha; lia.
Qed.

(** ** Sums over arrays *)

Lemma Qsum_flat_map {A B : Type} (f : B -> Q) (g : A -> list B) (l : list A) :
  Qsum (map f (flat_map g l)) == Qsum (map (fun x => Qsum (map f (g x))) l).
Proof.
  induction l as [|x l IH]; cbn [flat_map map]; [reflexivity|].
  rewrite map_app, Qsum_app, Qsum_cons, IH. reflexivity.
Qed.

Lemma Qsum_indices_cons (f : list Z -> Q) (d : Z) (ds : list Z) :
  Qsum (map f (indices (d :: ds)))
  == sum_over d (fun i => Qsum (map (fun r => f (i :: r)) (indices ds))).
Proof.
  cbn [indices]. rewrite Qsum_flat_map. unfold sum_over.
  apply Qsum_map_ext. intros i _. rewrite map_map. reflexivity.
Qed.

Lemma Qsum_indices_nil (f : list Z -> Q) : Qsum (map f (indices [])) == f [].
Proof. cbn [indices map]. rewrite Qsum_cons, Qsum_nil. ring. Qed.


Lemma total_2d (a : ndarray Q) (h w : Z) :
  shape a = [h; w] ->
  total a == sum_over h (fun i => sum_over w (fun j => at_ a [i; j])).
Proof.
  intros Hs. unfold total. rewrite Hs, Qsum_indices_cons.
  apply Qsum_map_ext. intros i _. rewrite Qsum_indices_cons.
  apply Qsum_map_ext. intros j _. apply Qsum_indices_nil.
Qed.




(** ** Mass of a zero-padded cross-correlation *)

Section WindowMass.
Variable D : Z -> Z -> Q.
Variables h w oh ow : Z.

Hypothesis D_nonneg : forall a b, 0 <= a < h -> 0 <= b < w -> (0 <= D a b)%Q.

Lemma padded_row_sum (a cv : Z) (rows_ok : bool) :
  sum_over ow (fun j =>
    if rows_ok && (0 <=? j + cv) && (j + cv <? w) then D a (j + cv) else 0%Q)
  == if rows_ok
     then sum_over ow (fun j =>
            if (0 <=? j + cv) && (j + cv <? w) then D a (j + cv) else 0%Q)
     else 0.
Proof.
  destruct rows_ok; cbn [andb]; [reflexivity|]. apply Qsum_map_zero.
Qed.



(** It is the whole mass when nothing lies outside the window. *)
Lemma window_mass_eq (cu cv : Z) :
  (forall a b, 0 <= a < h -> 0 <= b < w ->
     a - cu < 0 \/ oh <= a - cu \/ b - cv < 0 \/ ow <= b - cv -> D a b == 0) ->
  sum_over oh (fun i => sum_over ow (fun j =>
    if (0 <=? i + cu) && (i + cu <? h) && (0 <=? j + cv) && (j + cv <? w)
    then D (i + cu) (j + cv) else 0%Q))
  == sum_over h (fun a => sum_over w (fun b => D a b)).
Proof.
  intros Hout.
  transitivity
    (sum_over oh (fun i =>
       if (0 <=? i + cu) && (i + cu <? h)
       then sum_over ow (fun j =>
              if (0 <=? j + cv) && (j + cv <? w) then D (i + cu) (j + cv) else 0%Q)
       else 0%Q)).
  { apply Qsum_map_ext. intros i _.
    apply (padded_row_sum (i + cu) cv ((0 <=? i + cu) && (i + cu <? h))). }
  rewrite (sum_over_shift_eq oh h cu
             (fun a => sum_over ow (fun j =>
                if (0 <=? j + cv) && (j + cv <? w) then D a (j + cv) else 0%Q))).
  - apply Qsum_map_ext. intros a Ha. apply in_zrange in Ha.
    apply (sum_over_shift_eq ow w cv (D a)).
    intros b Hb Hcol. apply Hout; try assumption. lia.
  - intros a Ha Hrow.
    transitivity (sum_over ow (fun _ => 0%Q)); [|apply Qsum_map_zero].
    apply Qsum_map_ext. intros j _.
    destruct (Z.leb_spec 0 (j + cv)), (Z.ltb_spec (j + cv) w); cbn [andb];
      try reflexivity.
    apply Hout; try lia.
Qed.
End WindowMass.

Section CorrelationMass.
Variables K D : Z -> Z -> Q.
Variables k p h w oh ow : Z.

Hypothesis K_nonneg : forall u v, 0 <= u < k -> 0 <= v < k -> (0 <= K u v)%Q.
Hypothesis D_nonneg : forall a b, 0 <= a < h -> 0 <= b < w -> (0 <= D a b)%Q.




End CorrelationMass.

(** ** Mass of a dot map *)







(** ** Mass of a density channel *)

Lemma padding_fits (k n : Z) : 1 <= k -> 1 <= n -> 1 <= n + 2 * (k / 2) - k + 1.
Proof.
  intros Hk Hn. pose proof (Z.div_mod k 2 ltac:(lia)).
  pose proof (Z.mod_pos_bound k 2 ltac:(lia)). lia.
Qed.






(** ** Evaluations of the embedding *)

Example start_points_exact_fit :
  start_points 3 512 256 (1 # 2) = Some [0; 128; 256].
Proof. vm_compute. reflexivity. Qed.

Example start_points_undersized_axis :
  start_points 2 100 256 (1 # 2) = Some [0; -156].
Proof. vm_compute. reflexivity. Qed.

(** The stride rounds as the doubles do: 10 * (1 - 0.1) is the double 9.0
    and 5 * (1 - 0.2) the double 4.0, where the exact products of the
    doubles 0.1 and 0.2 are below 9 and 4; 1 - 2^-60 is the double 1.0;
    1 - 0.9 is below a tenth; 3 * (1 + 0.33333333333333326) is the
    double 4.0. *)
Example stride_of_rounds :
  stride_of 10 (1 # 10) = 9
  /\ stride_of 5 (1 # 5) = 4
  /\ stride_of 1 (1 # 2 ^ 60) = 1
  /\ stride_of 10 (9 # 10) = 0
  /\ stride_of 3 (- 33333333333333326 # 10 ^ 17) = 4
  /\ stride_of 256 (1 # 2) = 128.
Proof. vm_compute. repeat split; reflexivity. Qed.

Example start_points_rounded_stride :
  start_points 12 100 10 (1 # 10)
  = Some [0; 9; 18; 27; 36; 45; 54; 63; 72; 81; 90].
Proof. vm_compute. reflexivity. Qed.

(** A tile size beyond the range of the doubles is not [stride_finite]. *)
Example stride_finite_overflow :
  stride_finite 256 (1 # 2) = true
  /\ stride_finite (2 ^ 1024) (1 # 2) = false
  /\ stride_finite 100 (- (2 ^ 1023) # 1) = false.
Proof. vm_compute. repeat split; reflexivity. Qed.

Example main_kernel_list_missing_size :
  forall gaussian_filter,
    main_kernel_list gaussian_filter [3] [1%Q; 2%Q] = Raise IndexError.
Proof. intros gaussian_filter. reflexivity. Qed.

Example main_kernel_list_zero_size :
  forall gaussian_filter,
    main_kernel_list gaussian_filter [0] [1%Q] = Raise IndexError.
Proof. intros gaussian_filter. reflexivity. Qed.

Example main_kernel_list_negative_size :
  forall gaussian_filter,
    main_kernel_list gaussian_filter [-3] [1%Q] = Raise ValueError.
Proof. intros gaussian_filter. reflexivity. Qed.

Example create_non_overlapping_crops_zero_tile :
  create_non_overlapping_crops (constant_array [4; 5; 3] 7)
    (constant_array [4; 5] 1%Q) 0
  = Raise ZeroDivisionError.
Proof. reflexivity. Qed.

Example create_overlapping_crops_grid :
  exists stacked,
    create_overlapping_crops 3 (constant_array [5; 6; 3] 7) 4 (1 # 2)
    = Some (Ok ([], Stacked stacked))
    /\ shape stacked = [4; 4; 4; 3].
Proof.
  unfold create_overlapping_crops, start_points.
  replace (stride_of 4 (1 # 2)) with 2 by (vm_compute; reflexivity).
  eexists. split; reflexivity.
Qed.

(** ** Sharding of the image list *)

Lemma firstn_plus {A : Type} (a b : nat) :
  forall l : list A, firstn (a + b) l = firstn a l ++ firstn b (skipn a l).
Proof.
  induction a as [|a IH]; intros l; [reflexivity|].
  destruct l as [|x l]; cbn [Nat.add firstn skipn app].
  - rewrite firstn_nil. reflexivity.
  - rewrite IH. reflexivity.
Qed.

Lemma py_slice_inside {A : Type} (l : list A) (s e : Z) :
  0 <= s -> s <= e -> e <= Z.of_nat (length l) ->
  py_slice l s e = firstn (Z.to_nat (e - s)) (skipn (Z.to_nat s) l).
Proof.
  intros Hs Hse He. unfold py_slice.
  rewrite slice_indices_inside by assumption. reflexivity.
Qed.

(** The first [m] shards are the first [m * per_device] images. *)
Lemma leading_shards_concat {A : Type} (l : list A) (per : Z) (m : nat) :
  0 <= per -> Z.of_nat m * per <= Z.of_nat (length l) ->
  concat (map (fun device => py_slice l (device * per) ((device + 1) * per))
              (zrange (Z.of_nat m)))
  = firstn (Z.to_nat (Z.of_nat m * per)) l.
Proof.
  intros Hper. induction m as [|m IH]; intros Hlen; [reflexivity|].
  rewrite zrange_succ, map_app, concat_app, IH by nia.
  cbn [map concat]. rewrite app_nil_r.
  rewrite py_slice_inside by nia.
  replace (Z.to_nat (Z.of_nat (S m) * per))
    with (Z.to_nat (Z.of_nat m * per) + Z.to_nat per)%nat by nia.
  rewrite firstn_plus.
  replace ((Z.of_nat m + 1) * per - Z.of_nat m * per) with per by nia.
  reflexivity.
Qed.

(** X1: for one or more devices the shards are a partition of the image
    list in its order: there are [ndevices] of them, their concatenation is
    the list, each but the last has floor(len / ndevices) images, and the
    last one has the remainder on top of that. *)
Theorem setup_sub_folders_partition {A : Type} (img_list : list A)
  (ndevices : Z) :
  1 <= ndevices ->
  let n := Z.of_nat (length img_list) in
  exists sub_list,
    setup_sub_folders img_list ndevices = Ok sub_list
    /\ Z.of_nat (length sub_list) = ndevices
    /\ concat sub_list = img_list
    /\ (forall device, (Z.of_nat device < ndevices - 1) ->
          Z.of_nat (length (nth device sub_list [])) = n / ndevices)
    /\ Z.of_nat (length (last sub_list [])) = n / ndevices + n mod ndevices.
Proof.
  intros Hn n. unfold setup_sub_folders.
  rewrite py_floordiv_ok by lia. cbn [bind]. fold n.
  set (per := n / ndevices).
  assert (Hper : 0 <= per) by (apply Z.div_pos; lia).
  assert (Hdm : n = ndevices * per + n mod ndevices) by (apply Z.div_mod; lia).
  pose proof (Z.mod_pos_bound n ndevices ltac:(lia)) as Hmod.
  assert (Hfit : (ndevices - 1) * per <= n) by nia.
  eexists. split; [reflexivity|].
  assert (Hlast : py_slice img_list ((ndevices - 1) * per) n
                  = skipn (Z.to_nat ((ndevices - 1) * per)) img_list).
  { unfold n. rewrite py_slice_inside by (fold n; nia).
    apply firstn_all2. rewrite length_skipn. fold n. lia. }
  split; [|split; [|split]].
  - rewrite length_app, length_map. unfold zrange.
    rewrite length_map, length_seq. cbn [length]. lia.
  - rewrite concat_app. cbn [concat]. rewrite app_nil_r, Hlast.
    rewrite <- (Z2Nat.id (ndevices - 1)) at 1 by lia.
    rewrite leading_shards_concat by (rewrite ?Z2Nat.id; fold n; lia).
    rewrite Z2Nat.id by lia. apply firstn_skipn.
  - intros device Hdev.
    rewrite app_nth1
      by (unfold zrange; rewrite !length_map, length_seq; lia).
    rewrite (nth_indep _ []
               (py_slice img_list (0 * per) ((0 + 1) * per)))
      by (unfold zrange; rewrite !length_map, length_seq; lia).
    rewrite (map_nth (fun d => py_slice img_list (d * per) ((d + 1) * per))
               (zrange (ndevices - 1)) 0 device).
    unfold zrange.
    rewrite (nth_indep _ 0 (Z.of_nat 0)) by (rewrite length_map, length_seq; lia).
    rewrite map_nth, seq_nth by lia. cbn [Nat.add].
    rewrite py_slice_inside by (fold n; nia).
    rewrite length_firstn, length_skipn. fold n. nia.
  - rewrite last_last, Hlast, length_skipn. fold n. nia.
Qed.

(** X1 on five images and two devices. *)
Lemma setup_sub_folders_partition_witness :
  setup_sub_folders [1; 2; 3; 4; 5] 2 = Ok [[1; 2]; [3; 4; 5]].
Proof.
  destruct (setup_sub_folders_partition [1; 2; 3; 4; 5] 2 ltac:(lia))
    as [sub_list [H _]].
  rewrite H. vm_compute in H. symmetry. exact H.
Defined.

(** ** Geometry of the sliding-window offsets *)

(** [start_points] returns the closed form once the fuel covers the
    iterations. *)
Lemma start_points_returns (size split_size : Z) (overlap : Q) (fuel : nat) :
  split_size <= size ->
  1 <= stride_of split_size overlap ->
  (S (inner_count size split_size (stride_of split_size overlap)) < fuel)%nat ->
  start_points fuel size split_size overlap
  = Some (window_offsets size split_size (stride_of split_size overlap)).
Proof.
  intros Hle Hs Hfuel. unfold start_points, window_offsets.
  set (stride := stride_of split_size overlap) in *.
  set (n := inner_count size split_size stride) in *.
  destruct (Z.eqb_spec split_size size) as [Heq|Hne].
  - destruct fuel as [|fuel]; [lia|].
    apply start_points_loop_single; [exact Heq|lia].
  - set (d := size - split_size - 1).
    assert (Hd : 0 <= d) by (unfold d; lia).
    pose proof (Z.div_pos d stride Hd ltac:(lia)) as Hq.
    pose proof (Z.mul_div_le d stride ltac:(lia)) as Hlo.
    pose proof (Z.mul_succ_div_gt d stride ltac:(lia)) as Hhi.
    assert (Hn : Z.of_nat n = d / stride).
    { unfold n, inner_count. fold d. rewrite Z2Nat.id; lia. }
    rewrite (start_points_loop_run size split_size stride n 1 fuel [0]);
      try lia.
    + cbn [seq map]. replace (stride * Z.of_nat 0) with 0 by lia.
      cbn [app]. rewrite <- seq_shift, map_map.
      rewrite (map_ext (fun x => stride * Z.of_nat (S x))
                       (fun i => stride * (1 + Z.of_nat i)))
        by (intros i; f_equal; lia).
      reflexivity.
    + intros i Hi. assert (stride * (1 + i) <= stride * (d / stride)) by nia.
      unfold d in *. lia.
Qed.

Lemma window_offsets_length (size split_size stride : Z) :
  split_size < size ->
  length (window_offsets size split_size stride)
  = S (S (inner_count size split_size stride)).
Proof.
  intros Hlt. unfold window_offsets.
  destruct (Z.eqb_spec split_size size); [lia|].
  rewrite length_app, length_map, length_seq. cbn [length]. lia.
Qed.

Lemma window_offsets_nth (size split_size stride : Z) (i : nat) :
  split_size < size ->
  nth i (window_offsets size split_size stride) 0
  = if (i <=? inner_count size split_size stride)%nat
    then stride * Z.of_nat i
    else if (i =? S (inner_count size split_size stride))%nat
         then size - split_size
         else 0.
Proof.
  intros Hlt. unfold window_offsets.
  destruct (Z.eqb_spec split_size size) as [Heq|Hneq]; [lia|].
  set (n := inner_count size split_size stride).
  destruct (Nat.leb_spec i n) as [Hi|Hi].
  - rewrite app_nth1 by (rewrite length_map, length_seq; lia).
    rewrite (nth_indep _ 0 (stride * Z.of_nat 0))
      by (rewrite length_map, length_seq; lia).
    rewrite (map_nth (fun k => stride * Z.of_nat k)), seq_nth by lia.
    reflexivity.
  - rewrite app_nth2 by (rewrite length_map, length_seq; lia).
    rewrite length_map, length_seq.
    destruct (Nat.eqb_spec i (S n)) as [->|Hne].
    + rewrite Nat.sub_diag. reflexivity.
    + destruct (i - S n)%nat as [|[|m]] eqn:E; try reflexivity. lia.
Qed.

(** The last interior offset stays strictly before the flush one. *)
Lemma inner_count_bounds (size split_size stride : Z) :
  split_size < size -> 1 <= stride ->
  stride * Z.of_nat (inner_count size split_size stride) < size - split_size
  /\ size - split_size
     <= stride * Z.of_nat (S (inner_count size split_size stride)).
Proof.
  intros Hlt Hs. unfold inner_count.
  set (d := size - split_size - 1).
  assert (Hd : 0 <= d) by (unfold d; lia).
  pose proof (Z.div_pos d stride Hd ltac:(lia)) as Hq.
  pose proof (Z.mul_div_le d stride ltac:(lia)) as Hlo.
  pose proof (Z.mul_succ_div_gt d stride ltac:(lia)) as Hhi.
  rewrite Nat2Z.inj_succ, Z2Nat.id by lia. unfold d in *. lia.
Qed.

(** X2: for an axis at least one tile long and a stride
    int(T * (1 - f)), computed in double precision without overflow, of at
    least 1, the offsets [start_points] returns are strictly increasing,
    every tile lies inside the axis (0 <= offset <= L - T), and when the
    stride does not exceed the tile size every position of the axis is
    inside some tile. *)
Theorem start_points_tiles_cover (size split_size : Z) (overlap : Q) :
  split_size <= size ->
  stride_finite split_size overlap = true ->
  1 <= stride_of split_size overlap ->
  exists offsets,
    (forall fuel,
       (S (inner_count size split_size (stride_of split_size overlap)) < fuel)%nat ->
       start_points fuel size split_size overlap = Some offsets)
    /\ (forall i j, (i < j < length offsets)%nat ->
          nth i offsets 0 < nth j offsets 0)
    /\ (forall o, In o offsets -> 0 <= o <= size - split_size)
    /\ (stride_of split_size overlap <= split_size ->
        forall x, 0 <= x < size ->
          exists o, In o offsets /\ o <= x < o + split_size).
Proof.
  intros Hle _ Hs.
  set (stride := stride_of split_size overlap) in *.
  exists (window_offsets size split_size stride).
  split; [intros fuel Hfuel; apply start_points_returns; assumption|].
  destruct (Z.eq_dec split_size size) as [Heq|Hne].
  - assert (E : window_offsets size split_size stride = [0]).
    { unfold window_offsets. destruct (Z.eqb_spec split_size size);
        [reflexivity|contradiction]. }
    rewrite E. split; [|split].
    + intros i j Hij. cbn [length] in Hij. lia.
    + intros o [<-|[]]. lia.
    + intros _ x Hx. exists 0. split; [left; reflexivity|lia].
  - assert (Hlt : split_size < size) by lia.
    destruct (inner_count_bounds size split_size stride Hlt Hs) as [Hin Hout].
    set (n := inner_count size split_size stride) in *.
    assert (Hnth : forall i, (i <= S n)%nat ->
               nth i (window_offsets size split_size stride) 0
               = if (i <=? n)%nat then stride * Z.of_nat i
                 else size - split_size).
    { intros i Hi. rewrite window_offsets_nth by exact Hlt. fold n.
      destruct (Nat.leb_spec i n); [reflexivity|].
      destruct (Nat.eqb_spec i (S n)); [reflexivity|lia]. }
    split; [|split].
    + intros i j Hij. rewrite window_offsets_length in Hij by exact Hlt.
      fold n in Hij. rewrite !Hnth by lia.
      destruct (Nat.leb_spec i n), (Nat.leb_spec j n); try lia; nia.
    + intros o Ho. apply (In_nth _ _ 0) in Ho. destruct Ho as [i [Hi <-]].
      rewrite window_offsets_length in Hi by exact Hlt. fold n in Hi.
      rewrite Hnth by lia. destruct (Nat.leb_spec i n); [nia|lia].
    + intros Hst x Hx.
      destruct (Z_lt_le_dec x (size - split_size)) as [Hin'|Hlast].
      * set (i := Z.to_nat (x / stride)).
        pose proof (Z.div_pos x stride ltac:(lia) ltac:(lia)) as Hq.
        pose proof (Z.mul_div_le x stride ltac:(lia)) as Hlo.
        pose proof (Z.mul_succ_div_gt x stride ltac:(lia)) as Hhi.
        assert (Hi : (i <= n)%nat).
        { unfold i. assert (x / stride < Z.of_nat (S n)) by nia. lia. }
        exists (stride * Z.of_nat i). split.
        -- replace (stride * Z.of_nat i)
             with (nth i (window_offsets size split_size stride) 0).
           ++ apply nth_In. rewrite window_offsets_length by exact Hlt.
              fold n. lia.
           ++ rewrite Hnth by lia.
              destruct (Nat.leb_spec i n); [reflexivity|lia].
        -- unfold i. rewrite Z2Nat.id by lia. lia.
      * exists (size - split_size). split; [|lia].
        replace (size - split_size)
          with (nth (S n) (window_offsets size split_size stride) 0) at 1.
        -- apply nth_In. rewrite window_offsets_length by exact Hlt.
           fold n. lia.
        -- rewrite Hnth by lia.
           destruct (Nat.leb_spec (S n) n); [lia|reflexivity].
Qed.

(** X2 on an axis of length 1000 with tiles of 256 and overlap 0.5. *)
Lemma start_points_tiles_cover_witness :
  exists offsets,
    start_points 8 1000 256 (1 # 2) = Some offsets
    /\ (forall o, In o offsets -> 0 <= o <= 744)
    /\ (exists o, In o offsets /\ o <= 700 < o + 256).
Proof.
  destruct (start_points_tiles_cover 1000 256 (1 # 2) ltac:(lia)
              ltac:(vm_compute; reflexivity) ltac:(vm_compute; discriminate))
    as [offsets [Hrun [_ [Hin Hcover]]]].
  exists offsets. split; [apply Hrun; vm_compute; lia|].
  split; [exact Hin|].
  apply Hcover; [vm_compute; discriminate|lia].
Defined.

(** ** Overlapping tiles *)

Lemma window_offsets_in_range (size split_size stride : Z) :
  split_size <= size -> 1 <= stride ->
  forall o, In o (window_offsets size split_size stride) ->
            0 <= o <= size - split_size.
Proof.
  intros Hle Hs o Ho. unfold window_offsets in Ho.
  destruct (Z.eqb_spec split_size size) as [Heq|Hneq].
  - destruct Ho as [<-|[]]. lia.
  - destruct (inner_count_bounds size split_size stride ltac:(lia) Hs)
      as [Hin _].
    apply in_app_or in Ho. destruct Ho as [Ho|[<-|[]]]; [|lia].
    apply in_map_iff in Ho. destruct Ho as [i [<- Hi]].
    apply in_seq in Hi. nia.
Qed.

Lemma window_offsets_nonempty (size split_size stride : Z) :
  window_offsets size split_size stride <> [].
Proof.
  unfold window_offsets. destruct (split_size =? size); [discriminate|].
  cbn [seq map app]. discriminate.
Qed.

Lemma mapM_map_ok {A B : Type} (f : A -> result B) (g : A -> B) (l : list A) :
  (forall x, In x l -> f x = Ok (g x)) -> mapM f l = Ok (map g l).
Proof.
  induction l as [|x l IH]; intros H; [reflexivity|].
  cbn [mapM map]. rewrite (H x (or_introl eq_refl)). cbn [bind].
  rewrite IH by (intros y Hy; apply H; right; exact Hy). reflexivity.
Qed.

Lemma getitem_window_inside {A : Type} (image : ndarray A)
  (h w c crop_size i j : Z) :
  shape image = [h; w; c] ->
  0 <= crop_size -> 0 <= i -> i + crop_size <= h -> 0 <= j -> j + crop_size <= w ->
  getitem_window image i (i + crop_size) j (j + crop_size)
  = Ok (crop_at image crop_size c (i, j)).
Proof.
  intros Hs Hc Hi Hih Hj Hjw. unfold getitem_window. rewrite Hs.
  rewrite (slice_indices_inside h i (i + crop_size)) by lia.
  rewrite (slice_indices_inside w j (j + crop_size)) by lia.
  replace (i + crop_size - i) with crop_size by lia.
  replace (j + crop_size - j) with crop_size by lia.
  reflexivity.
Qed.

(** The crop at row offset number [r] and column offset number [q] is
    number [r * columns + q] of the two nested loops. *)
Lemma nested_loops_nth {B : Type} (g : Z * Z -> B) (d : B)
  (x_start : list Z) (q : nat) :
  (q < length x_start)%nat ->
  forall (y_start : list Z) (r : nat),
    (r < length y_start)%nat ->
    nth (r * length x_start + q)
        (map g (flat_map (fun i => map (fun j => (i, j)) x_start) y_start)) d
    = g (nth r y_start 0, nth q x_start 0).
Proof.
  intros Hq. induction y_start as [|i ys IH]; intros r Hr;
    [cbn [length] in Hr; lia|].
  cbn [flat_map]. rewrite map_app, map_map.
  destruct r as [|r].
  - cbn [Nat.mul Nat.add nth].
    rewrite app_nth1 by (rewrite length_map; exact Hq).
    rewrite (nth_indep _ d (g (i, 0))) by (rewrite length_map; exact Hq).
    apply (map_nth (fun j => g (i, j))).
  - rewrite app_nth2 by (rewrite length_map; cbn [Nat.mul]; lia).
    rewrite length_map.
    replace (S r * length x_start + q - length x_start)%nat
      with (r * length x_start + q)%nat by (cbn [Nat.mul]; lia).
    cbn [nth]. apply IH. cbn [length] in Hr. lia.
Qed.

Lemma nested_loops_length (x_start y_start : list Z) :
  length (flat_map (fun i => map (fun j => (i, j)) x_start) y_start)
  = (length y_start * length x_start)%nat.
Proof.
  induction y_start as [|i ys IH]; [reflexivity|].
  cbn [flat_map length]. rewrite length_app, length_map, IH. reflexivity.
Qed.

(** Overlapping mode on an image that holds at least one tile. *)
Lemma create_overlapping_crops_spec {A : Type} (image : ndarray A)
  (h w c crop_size : Z) (overlap : Q) :
  shape image = [h; w; c] ->
  1 <= crop_size -> crop_size <= h -> crop_size <= w ->
  1 <= stride_of crop_size overlap ->
  let stride := stride_of crop_size overlap in
  let X_points := window_offsets w crop_size stride in
  let Y_points := window_offsets h crop_size stride in
  forall fuel,
    (S (inner_count w crop_size stride) < fuel)%nat ->
    (S (inner_count h crop_size stride) < fuel)%nat ->
    exists stacked,
      create_overlapping_crops fuel image crop_size overlap
      = Some (Ok ([], Stacked stacked))
      /\ shape stacked
         = [Z.of_nat (length Y_points * length X_points); crop_size; crop_size; c]
      /\ forall r q a b tl,
           (r < length Y_points)%nat -> (q < length X_points)%nat ->
           at_ stacked (Z.of_nat (r * length X_points + q) :: a :: b :: tl)
           = at_ image (nth r Y_points 0 + a :: nth q X_points 0 + b :: tl).
Proof.
  intros Hs Hc Hh Hw Hstride stride X_points Y_points fuel HfX HfY.
  unfold create_overlapping_crops. rewrite Hs.
  rewrite (start_points_returns w crop_size overlap fuel Hw Hstride HfX).
  rewrite (start_points_returns h crop_size overlap fuel Hh Hstride HfY).
  fold stride. fold X_points. fold Y_points.
  unfold arrange_crops, collect_crops.
  rewrite (mapM_map_ok _ (crop_at image crop_size c)).
  - cbn [bind].
    set (pairs := flat_map (fun i => map (fun j => (i, j)) X_points) Y_points).
    assert (Hlen : length pairs = (length Y_points * length X_points)%nat)
      by apply nested_loops_length.
    assert (HX : X_points <> []) by apply window_offsets_nonempty.
    assert (HY : Y_points <> []) by apply window_offsets_nonempty.
    destruct (map (crop_at image crop_size c) pairs) as [|crop0 crops] eqn:Ecrops.
    { exfalso. apply (f_equal (@length _)) in Ecrops.
      rewrite length_map, Hlen in Ecrops. cbn [length] in Ecrops.
      destruct X_points; [contradiction|]. destruct Y_points; [contradiction|].
      cbn [length] in Ecrops. lia. }
    assert (Hall : forall a, In a (crop0 :: crops) ->
                     shape a = [crop_size; crop_size; c]).
    { intros a Ha. rewrite <- Ecrops in Ha. apply in_map_iff in Ha.
      destruct Ha as [ij [<- _]]. reflexivity. }
    unfold stack.
    replace (forallb (fun a => shape_eqb (shape a) (shape crop0)) crops)
      with true.
    + eexists. split; [reflexivity|]. cbn [shape at_].
      split.
      * rewrite (Hall crop0 (or_introl eq_refl)).
        f_equal. f_equal. rewrite <- Hlen, <- (length_map (crop_at image crop_size c)).
        rewrite Ecrops. reflexivity.
      * intros r q a b tl Hr Hq. rewrite Nat2Z.id, <- Ecrops.
        unfold pairs.
        rewrite (nested_loops_nth (crop_at image crop_size c) crop0
                   X_points q Hq Y_points r Hr).
        reflexivity.
    + symmetry. apply forallb_forall. intros a Ha. apply shape_eqb_eq.
      rewrite (Hall a (or_intror Ha)), (Hall crop0 (or_introl eq_refl)).
      reflexivity.
  - intros [i j] Hij. cbn [fst snd].
    apply in_flat_map in Hij. destruct Hij as [i' [Hi Hj]].
    apply in_map_iff in Hj. destruct Hj as [j' [E Hj]]. injection E as <- <-.
    pose proof (window_offsets_in_range h crop_size stride Hh Hstride i' Hi).
    pose proof (window_offsets_in_range w crop_size stride Hw Hstride j' Hj).
    apply (getitem_window_inside image h w c); try assumption; lia.
Qed.

(** X3: on an image of shape h x w x c with h >= T >= 1, w >= T and a
    stride int(T * (1 - f)), computed in double precision without
    overflow, of at least 1, overlapping mode returns the crops stacked (it
    prints nothing): one T x T x c tile per pair of a row and a column
    offset, row offsets outermost, and tile number r * columns + q is the
    image window that starts at row offset r and column offset q. *)
Theorem create_overlapping_crops_tiles {A : Type} (image : ndarray A)
  (h w c crop_size : Z) (overlap : Q) :
  shape image = [h; w; c] ->
  1 <= crop_size -> crop_size <= h -> crop_size <= w ->
  stride_finite crop_size overlap = true ->
  1 <= stride_of crop_size overlap ->
  let stride := stride_of crop_size overlap in
  let X_points := window_offsets w crop_size stride in
  let Y_points := window_offsets h crop_size stride in
  forall fuel,
    (S (inner_count w crop_size stride) < fuel)%nat ->
    (S (inner_count h crop_size stride) < fuel)%nat ->
    exists stacked,
      create_overlapping_crops fuel image crop_size overlap
      = Some (Ok ([], Stacked stacked))
      /\ shape stacked
         = [Z.of_nat (length Y_points * length X_points); crop_size; crop_size; c]
      /\ forall r q a b tl,
           (r < length Y_points)%nat -> (q < length X_points)%nat ->
           at_ stacked (Z.of_nat (r * length X_points + q) :: a :: b :: tl)
           = at_ image (nth r Y_points 0 + a :: nth q X_points 0 + b :: tl).
Proof.
  intros Hs Hc Hh Hw _.
  exact (create_overlapping_crops_spec image h w c crop_size overlap
           Hs Hc Hh Hw).
Qed.

(** X3 on a 5 x 6 x 3 image with tiles of 4 and overlap 0.5. *)
Lemma create_overlapping_crops_tiles_witness :
  exists stacked,
    create_overlapping_crops 3 (np_asarray (gradient_image 6 5)) 4 (1 # 2)
    = Some (Ok ([], Stacked stacked))
    /\ shape stacked = [4; 4; 4; 3]
    /\ at_ stacked [3; 0; 0; 1] = 4.
Proof.
  destruct (create_overlapping_crops_tiles (np_asarray (gradient_image 6 5))
              5 6 3 4 (1 # 2) eq_refl ltac:(lia) ltac:(lia) ltac:(lia)
              ltac:(vm_compute; reflexivity)
              ltac:(vm_compute; discriminate) 3%nat
              ltac:(vm_compute; lia) ltac:(vm_compute; lia))
    as [stacked [Hrun [Hshape Hat]]].
  exists stacked. split; [exact Hrun|]. split; [exact Hshape|].
  exact (Hat 1%nat 1%nat 0 0 [1] ltac:(vm_compute; lia) ltac:(vm_compute; lia)).
Defined.

(** ** Rescaling and tiling together *)

Lemma ratio_le_iff (tile n z : Z) :
  0 < n -> (inject_Z tile / inject_Z n <= inject_Z z)%Q <-> tile <= z * n.
Proof.
  intros Hn. destruct n as [|p|p]; try lia.
  unfold Qle, Qdiv, Qmult, Qinv, inject_Z. cbn [Qnum Qden].
  rewrite Pos.mul_1_l, !Z.mul_1_r. reflexivity.
Qed.

Lemma Qceiling_le_iff (q : Q) (z : Z) :
  Qceiling q <= z <-> (q <= inject_Z z)%Q.
Proof.
  split.
  - intros H. eapply Qle_trans; [apply Qle_ceiling|].
    rewrite <- Zle_Qle. exact H.
  - intros H. rewrite <- (Qceiling_Z z). apply Qceiling_resp_le. exact H.
Qed.

(** The scale factor is below exactly the integers that make both
    dimensions reach the tile size. *)
Lemma scale_factor_least (tile h w z : Z) :
  0 < h -> 0 < w ->
  Qceiling (Qmax (inject_Z tile / inject_Z h) (inject_Z tile / inject_Z w)) <= z
  <-> tile <= z * h /\ tile <= z * w.
Proof.
  intros Hh Hw.
  rewrite Qceiling_le_iff, Q.max_lub_iff, !ratio_le_iff by assumption.
  reflexivity.
Qed.

(** *** Lower bounds of the double-precision stride *)

Lemma round_half_even_lower (a b c : Z) :
  0 < b -> b * c <= a -> c <= round_half_even a b.
Proof.
  intros Hb Hc. assert (c <= a / b) by (apply Z.div_le_lower_bound; assumption).
  unfold round_half_even.
  destruct (2 * (a mod b) ?= b); [destruct (Z.even (a / b))| |]; lia.
Qed.

Lemma scale2_lower (m e j : Z) :
  0 <= j ->
  (0 <= e -> 2 ^ j <= m * 2 ^ e) ->
  (e < 0 -> 2 ^ j * 2 ^ (- e) <= m) ->
  (inject_Z (2 ^ j) <= scale2 m e)%Q.
Proof.
  intros Hj Hpos Hneg. unfold scale2.
  destruct (Z.leb_spec 0 e) as [He|He].
  - rewrite <- Zle_Qle. apply Hpos, He.
  - unfold Qle, inject_Z. cbn [Qnum Qden].
    rewrite Z2Pos.id by (apply Z.pow_pos_nonneg; lia).
    rewrite Z.mul_1_r. apply Hneg, He.
Qed.

(** The double nearest to a positive fraction is at least every power of
    two below the fraction. *)
Lemma round53_pos_lower (n d j : Z) :
  0 < n -> 0 < d -> 0 <= j -> 2 ^ j * d <= n ->
  (inject_Z (2 ^ j)
   <= scale2 (fst (round53_pos n d)) (snd (round53_pos n d)))%Q.
Proof.
  intros Hn Hd Hj Hle. unfold round53_pos.
  set (e0 := Z.log2 n - Z.log2 d - 53).
  pose proof (Z.log2_spec n Hn) as [Hn1 Hn2].
  pose proof (Z.log2_spec d Hd) as [Hd1 Hd2].
  pose proof (Z.log2_nonneg n) as Hln. pose proof (Z.log2_nonneg d) as Hld.
  assert (Hp : forall k, 0 <= k -> 0 < 2 ^ k) by (intros; apply Z.pow_pos_nonneg; lia).
  destruct (Z.leb_spec 0 e0) as [He|He].
  - (* the fraction is n / (d * 2^e0) *)
    assert (Hfit : d * 2 ^ e0 <= n).
    { assert (d * 2 ^ e0 < 2 ^ (Z.succ (Z.log2 d)) * 2 ^ e0)
        by (apply Z.mul_lt_mono_pos_r; [apply Hp; lia|lia]).
      rewrite <- Z.pow_add_r in H by lia.
      assert (2 ^ (Z.succ (Z.log2 d) + e0) <= 2 ^ Z.log2 n)
        by (apply Z.pow_le_mono_r; unfold e0; lia).
      lia. }
    pose proof (Hp e0 He) as Hpe.
    destruct (Z.ltb_spec (n / (d * 2 ^ e0)) (2 ^ 53)) as [Hb|Hb]; cbn [fst snd].
    + apply scale2_lower; [exact Hj| |lia]. intros _.
      destruct (Z_le_gt_dec e0 j) as [Hej|Hej].
      * assert (2 ^ (j - e0) <= round_half_even n (d * 2 ^ e0)).
        { apply round_half_even_lower; [nia|].
          rewrite <- Z.mul_assoc, <- Z.pow_add_r by lia.
          replace (e0 + (j - e0)) with j by lia. lia. }
        replace j with ((j - e0) + e0) at 1 by lia.
        rewrite Z.pow_add_r by lia. nia.
      * assert (1 <= round_half_even n (d * 2 ^ e0))
          by (apply round_half_even_lower; [nia|lia]).
        assert (2 ^ j <= 2 ^ e0) by (apply Z.pow_le_mono_r; lia). nia.
    + assert (He1 : 0 <= e0 + 1) by lia.
      apply scale2_lower; [exact Hj| |lia]. intros _.
      rewrite Z.pow_add_r by lia. change (2 ^ 1) with 2.
      destruct (Z_le_gt_dec (e0 + 1) j) as [Hej|Hej].
      * assert (2 ^ (j - e0 - 1) <= round_half_even n (2 * (d * 2 ^ e0))).
        { apply round_half_even_lower; [nia|].
          replace (2 * (d * 2 ^ e0) * 2 ^ (j - e0 - 1))
            with (d * (2 ^ e0 * (2 ^ 1 * 2 ^ (j - e0 - 1)))) by (change (2 ^ 1) with 2; ring).
          rewrite <- !Z.pow_add_r by lia.
          replace (e0 + (1 + (j - e0 - 1))) with j by lia. lia. }
        replace j with ((j - e0 - 1) + (e0 + 1)) at 1 by lia.
        rewrite Z.pow_add_r by lia. rewrite (Z.pow_add_r 2 e0 1) by lia.
        change (2 ^ 1) with 2. nia.
      * assert (1 <= round_half_even n (2 * (d * 2 ^ e0))).
        { apply round_half_even_lower; [nia|].
          assert (2 ^ 53 * (d * 2 ^ e0) <= n).
          { pose proof (Z.mul_div_le n (d * 2 ^ e0) ltac:(nia)).
            assert (0 < d * 2 ^ e0) by nia. nia. }
          assert (2 <= 2 ^ 53) by (vm_compute; discriminate). nia. }
        assert (2 ^ j <= 2 ^ e0) by (apply Z.pow_le_mono_r; lia). nia.
  - (* the fraction is (n * 2^(-e0)) / d *)
    pose proof (Hp (- e0) ltac:(lia)) as Hpe.
    destruct (Z.ltb_spec (n * 2 ^ (- e0) / d) (2 ^ 53)) as [Hb|Hb]; cbn [fst snd].
    + apply scale2_lower; [exact Hj|lia|]. intros _.
      apply round_half_even_lower; [exact Hd|]. nia.
    + apply scale2_lower; [exact Hj| |].
      * intros He1. assert (e0 = -1) by lia. subst e0.
        replace (Z.log2 n - Z.log2 d - 53 + 1) with 0 by lia.
        rewrite Z.pow_0_r, Z.mul_1_r.
        apply round_half_even_lower; [lia|].
        replace (- (Z.log2 n - Z.log2 d - 53)) with 1 in * by lia.
        change (2 ^ 1) with 2. nia.
      * intros He1.
        apply round_half_even_lower; [lia|].
        replace (- e0) with (1 + - (e0 + 1)) by lia.
        rewrite Z.pow_add_r by lia. change (2 ^ 1) with 2.
        pose proof (Hp (- (e0 + 1)) ltac:(lia)). nia.
Qed.

Lemma round53_lower (x : Q) (j : Z) :
  0 <= j -> (inject_Z (2 ^ j) <= x)%Q -> (inject_Z (2 ^ j) <= round53 x)%Q.
Proof.
  intros Hj Hx. destruct x as [n d]. unfold Qle in Hx. cbn [Qnum Qden inject_Z] in Hx.
  rewrite Z.mul_1_r in Hx.
  assert (Hpow : 0 < 2 ^ j) by (apply Z.pow_pos_nonneg; lia).
  unfold round53. cbn [Qnum Qden].
  destruct n as [|p|p]; try lia.
  pose proof (round53_pos_lower (Zpos p) (Zpos d) j ltac:(lia) ltac:(lia) Hj Hx) as H.
  destruct (round53_pos (Zpos p) (Zpos d)) as [m e]. exact H.
Qed.

Lemma py_int_lower (x : Q) : (1 <= x)%Q -> 1 <= py_int x.
Proof.
  destruct x as [n d]. unfold Qle, py_int. cbn [Qnum Qden].
  intros H. apply Z.quot_le_lower_bound; lia.
Qed.

Lemma half_stride (crop_size : Z) :
  2 <= crop_size -> 1 <= stride_of crop_size (1 # 2).
Proof.
  intros H. unfold stride_of. apply py_int_lower.
  apply (round53_lower _ 0 ltac:(lia)).
  assert (Ha : (inject_Z (2 ^ 1) <= round53 (inject_Z crop_size))%Q).
  { apply round53_lower; [lia|]. rewrite <- Zle_Qle. exact H. }
  assert (Hc : round53 (1 - round53 (1 # 2)) == 1 # 2) by (vm_compute; reflexivity).
  rewrite Hc. change (inject_Z (2 ^ 0)) with 1%Q.
  change (inject_Z (2 ^ 1)) with 2%Q in Ha.
  setoid_replace 1%Q with (2 * (1 # 2))%Q by (vm_compute; reflexivity).
  apply Qmult_le_compat_r; [exact Ha|discriminate].
Qed.

Section RescaleThenTile.
Variable resize : PILImage -> Z * Z -> PILImage.

Hypothesis resize_has_size :
  forall image w h, 0 < w -> 0 < h -> im_size (resize image (w, h)) = (w, h).

(** The rescaler's result in both branches. *)
Lemma resize_rescale_info_spec (image : PILImage) (locations : list (Q * Q))
  (image_size w h : Z) :
  im_size image = (w, h) -> 0 < w -> 0 < h ->
  exists (arr : ndarray Z) (locations' : list (Q * Q)) (scale : Z),
    resize_rescale_info resize image locations image_size = Ok (arr, locations')
    /\ shape arr = [scale * h; scale * w; 3]
    /\ length locations' = length locations
    /\ 1 <= scale
    /\ image_size <= scale * h /\ image_size <= scale * w
    /\ forall z, 1 <= z -> image_size <= z * h -> image_size <= z * w -> scale <= z.
Proof.
  intros Hsize Hw Hh. unfold resize_rescale_info. rewrite Hsize.
  destruct ((h <? image_size) || (w <? image_size)) eqn:Esmall.
  - unfold py_truediv.
    destruct (Z.eqb_spec h 0); [lia|]. destruct (Z.eqb_spec w 0); [lia|].
    cbn [bind]. rewrite !py_int_inject_mul.
    set (scale := Qceiling (Qmax (inject_Z image_size / inject_Z h)
                                 (inject_Z image_size / inject_Z w))).
    assert (Hself : image_size <= scale * h /\ image_size <= scale * w).
    { apply scale_factor_least; try assumption. unfold scale. lia. }
    assert (Hpos : 1 <= scale).
    { apply orb_true_iff in Esmall.
      destruct Esmall as [E|E]; apply Z.ltb_lt in E; nia. }
    eexists _, _, scale. split; [reflexivity|].
    split; [unfold np_asarray; rewrite resize_has_size by nia; reflexivity|].
    split; [unfold scale_locations; apply length_map|].
    split; [exact Hpos|]. split; [apply Hself|]. split; [apply Hself|].
    intros z _ Hzh Hzw. apply scale_factor_least; try assumption.
    split; assumption.
  - apply orb_false_iff in Esmall. destruct Esmall as [E1 E2].
    apply Z.ltb_ge in E1. apply Z.ltb_ge in E2.
    eexists _, _, 1. split; [reflexivity|].
    split; [unfold np_asarray; rewrite resize_has_size by lia;
            rewrite !Z.mul_1_l; reflexivity|].
    split; [reflexivity|]. split; [lia|]. split; [lia|]. split; [lia|].
    intros z Hz _ _. exact Hz.
Qed.

(** X4: for an image of positive width and height the rescaler returns an
    array whose height and width both reach the minimum size: the
    dimensions are the input's multiplied by the least positive integer
    that achieves this, and no point is added or lost. *)
Theorem resize_rescale_info_meets_minimum (image : PILImage)
  (locations : list (Q * Q)) (image_size w h : Z) :
  im_size image = (w, h) -> 0 < w -> 0 < h ->
  exists (arr : ndarray Z) (locations' : list (Q * Q)) (scale : Z),
    resize_rescale_info resize image locations image_size = Ok (arr, locations')
    /\ shape arr = [scale * h; scale * w; 3]
    /\ length locations' = length locations
    /\ 1 <= scale
    /\ image_size <= scale * h /\ image_size <= scale * w
    /\ forall z, 1 <= z -> image_size <= z * h -> image_size <= z * w -> scale <= z.
Proof. exact (resize_rescale_info_spec image locations image_size w h). Qed.

(** X5: with a tile size of at least 2, whatever the (positive) size of the
    image, the array the rescaler returns can be tiled in overlapping mode
    with overlap 0.5: the crops come back stacked as at least one tile of
    shape T x T x 3. *)
Theorem rescaled_image_tiles (image : PILImage) (locations : list (Q * Q))
  (image_size w h : Z) :
  im_size image = (w, h) -> 0 < w -> 0 < h -> 2 <= image_size ->
  exists (arr : ndarray Z) (locations' : list (Q * Q)) (fuel0 : nat),
    resize_rescale_info resize image locations image_size = Ok (arr, locations')
    /\ forall fuel, (fuel0 <= fuel)%nat ->
         exists stacked n,
           create_overlapping_crops fuel arr image_size (1 # 2)
           = Some (Ok ([], Stacked stacked))
           /\ shape stacked = [n; image_size; image_size; 3]
           /\ 1 <= n.
Proof.
  intros Hsize Hw Hh Ht.
  destruct (resize_rescale_info_spec image locations image_size w h Hsize Hw Hh)
    as [arr [locations' [scale [Hrun [Hshape [_ [_ [Hmh [Hmw _]]]]]]]]].
  pose proof (half_stride image_size Ht) as Hstride.
  set (stride := stride_of image_size (1 # 2)) in *.
  exists arr, locations',
    (S (S (Nat.max (inner_count (scale * w) image_size stride)
                   (inner_count (scale * h) image_size stride)))).
  split; [exact Hrun|]. intros fuel Hfuel.
  destruct (create_overlapping_crops_spec arr (scale * h) (scale * w) 3
              image_size (1 # 2) Hshape ltac:(lia) Hmh Hmw Hstride fuel)
    as [stacked [Hc [Hs _]]].
  - fold stride. lia.
  - fold stride. lia.
  - exists stacked. eexists. split; [exact Hc|]. split; [exact Hs|].
    fold stride.
    pose proof (window_offsets_nonempty (scale * w) image_size stride).
    pose proof (window_offsets_nonempty (scale * h) image_size stride).
    destruct (window_offsets (scale * w) image_size stride); [contradiction|].
    destruct (window_offsets (scale * h) image_size stride); [contradiction|].
    cbn [length]. lia.
Qed.
End RescaleThenTile.

(** X4 on a 300 x 100 image with a minimum of 256. *)
Lemma resize_rescale_info_meets_minimum_witness :
  exists arr locations',
    resize_rescale_info resize_nearest (gradient_image 300 100)
      [(10 # 1, 10 # 1)] 256
    = Ok (arr, locations')
    /\ shape arr = [300; 900; 3].
Proof.
  destruct (resize_rescale_info_meets_minimum resize_nearest
              (fun image w h _ _ => resize_nearest_size image w h)
              (gradient_image 300 100) [(10 # 1, 10 # 1)] 256 300 100
              eq_refl ltac:(lia) ltac:(lia))
    as [arr [locations' [scale [Hrun [Hshape [_ [_ [H1 [H2 Hleast]]]]]]]]].
  exists arr, locations'. split; [exact Hrun|].
  assert (scale = 3).
  { specialize (Hleast 3 ltac:(lia) ltac:(lia) ltac:(lia)). lia. }
  subst scale. exact Hshape.
Defined.

(** X5 on a 30 x 10 image with tiles of 16. *)
Lemma rescaled_image_tiles_witness :
  exists arr locations' fuel stacked n,
    resize_rescale_info resize_nearest (gradient_image 30 10) [] 16
    = Ok (arr, locations')
    /\ create_overlapping_crops fuel arr 16 (1 # 2)
       = Some (Ok ([], Stacked stacked))
    /\ shape stacked = [n; 16; 16; 3].
Proof.
  destruct (rescaled_image_tiles resize_nearest
              (fun image w h _ _ => resize_nearest_size image w h)
              (gradient_image 30 10) [] 16 30 10
              eq_refl ltac:(lia) ltac:(lia) ltac:(lia))
    as [arr [locations' [fuel0 [Hrun Htiles]]]].
  destruct (Htiles fuel0 (Nat.le_refl fuel0)) as [stacked [n [Hc [Hs _]]]].
  exists arr, locations', fuel0, stacked, n.
  split; [exact Hrun|]. split; [exact Hc|exact Hs].
Defined.

(** ** Overlapping mode with a stride of zero *)

(** X6: when the stride int(T * (1 - f)), computed in double precision
    without overflow, is 0 (a tile size of 1 with overlap 0.5, for one) and
    the image is wider or taller than the tile, overlapping mode never
    returns: the offset loop does not end, whatever the fuel. *)
Theorem create_overlapping_crops_zero_stride {A : Type} (image : ndarray A)
  (h w crop_size : Z) (rest : list Z) (overlap : Q) :
  shape image = h :: w :: rest ->
  stride_finite crop_size overlap = true ->
  stride_of crop_size overlap = 0 ->
  crop_size < w \/ crop_size < h ->
  forall fuel, create_overlapping_crops fuel image crop_size overlap = None.
Proof.
  intros Hs _ Hstride Hbig fuel. unfold create_overlapping_crops. rewrite Hs.
  unfold start_points.
  destruct Hbig as [Hw|Hh].
  - rewrite (start_points_loop_stuck w crop_size _ fuel 1 [0] Hstride Hw).
    reflexivity.
  - rewrite (start_points_loop_stuck h crop_size _ fuel 1 [0] Hstride Hh).
    destruct (start_points_loop fuel w crop_size _ 1 [0]); reflexivity.
Qed.

(** X6 with tiles of 1 pixel and overlap 0.5 on a 5 x 6 image. *)
Lemma create_overlapping_crops_zero_stride_witness :
  create_overlapping_crops 1000 (np_asarray (gradient_image 6 5)) 1 (1 # 2)
  = None.
Proof.
  apply (create_overlapping_crops_zero_stride
           (np_asarray (gradient_image 6 5)) 5 6 1 [3] (1 # 2) eq_refl).
  - vm_compute. reflexivity.
  - vm_compute. reflexivity.
  - left. lia.
Defined.

(** ** Entries of a density channel *)

(** The channel of a kernel over a dot map of at least 2 x 2 pixels: its
    shape and its entries. *)
Lemma GaussianKernel_forward_at (kernel dots : ndarray Q) (k h w : Z) :
  shape kernel = [k; k] -> shape dots = [h; w] ->
  1 <= k -> 2 <= h -> 2 <= w ->
  exists channel,
    GaussianKernel_forward kernel (unsqueeze0 (unsqueeze0 dots)) = Ok channel
    /\ shape channel = [h + 2 * (k / 2) - k + 1; w + 2 * (k / 2) - k + 1]
    /\ forall i j,
         at_ channel [i; j]
         = sum_over k (fun u => sum_over k (fun v =>
             Qmult (at_ kernel [u; v])
               (if (0 <=? i + u - k / 2) && (i + u - k / 2 <? h)
                   && (0 <=? j + v - k / 2) && (j + v - k / 2 <? w)
                then at_ dots [i + u - k / 2; j + v - k / 2] else 0%Q))).
Proof.
  intros Hk Hd Hk1 Hh Hw.
  pose proof (padding_fits k h Hk1 ltac:(lia)) as Hoh.
  pose proof (padding_fits k w Hk1 ltac:(lia)) as How.
  assert (Hoh2 : 2 <= h + 2 * (k / 2) - k + 1).
  { pose proof (Z.div_mod k 2 ltac:(lia)).
    pose proof (Z.mod_pos_bound k 2 ltac:(lia)). lia. }
  assert (How2 : 2 <= w + 2 * (k / 2) - k + 1).
  { pose proof (Z.div_mod k 2 ltac:(lia)).
    pose proof (Z.mod_pos_bound k 2 ltac:(lia)). lia. }
  unfold GaussianKernel_forward. rewrite Hk.
  change (list_getitem [k; k] 0) with (Ok k). cbn [bind].
  unfold conv2d. rewrite Hk. cbn [unsqueeze0 shape]. rewrite Hd.
  cbn [Z.eqb Pos.eqb negb orb].
  destruct (Z.leb_spec (h + 2 * (k / 2) - k + 1) 0); [lia|].
  destruct (Z.leb_spec (w + 2 * (k / 2) - k + 1) 0); [lia|].
  cbn [bind]. eexists. split; [reflexivity|].
  unfold squeeze, squeeze_shape. cbn [shape at_ filter unsqueeze_index].
  cbn [Z.eqb Pos.eqb negb].
  destruct (Z.eqb_spec (h + 2 * (k / 2) - k + 1) 1); [lia|].
  destruct (Z.eqb_spec (w + 2 * (k / 2) - k + 1) 1); [lia|].
  cbn [negb]. split; [reflexivity|]. intros i j. reflexivity.
Qed.

(** X7: for a kernel of size k >= 1 and a dot map of at least 2 x 2
    pixels, the channel is as large as the dot map when k is odd and one
    pixel larger in both directions when k is even. *)
Theorem GaussianKernel_forward_shape (kernel dots : ndarray Q) (k h w : Z) :
  shape kernel = [k; k] -> shape dots = [h; w] ->
  1 <= k -> 2 <= h -> 2 <= w ->
  exists channel,
    GaussianKernel_forward kernel (unsqueeze0 (unsqueeze0 dots)) = Ok channel
    /\ shape channel = [h + 1 - k mod 2; w + 1 - k mod 2]
    /\ (k mod 2 = 1 -> shape channel = shape dots)
    /\ (k mod 2 = 0 -> shape channel = [h + 1; w + 1]).
Proof.
  intros Hk Hd Hk1 Hh Hw.
  destruct (GaussianKernel_forward_at kernel dots k h w Hk Hd Hk1 Hh Hw)
    as [channel [Hrun [Hs _]]].
  exists channel. split; [exact Hrun|].
  pose proof (Z.div_mod k 2 ltac:(lia)) as Hdm.
  assert (E : shape channel = [h + 1 - k mod 2; w + 1 - k mod 2]).
  { rewrite Hs. f_equal; [|f_equal]; lia. }
  split; [exact E|]. split.
  - intros Hodd. rewrite E, Hd, Hodd. f_equal; [|f_equal]; lia.
  - intros Heven. rewrite E, Heven. f_equal; [|f_equal]; lia.
Qed.

(** X7 with a kernel of size 4 on a 5 x 6 dot map. *)
Lemma GaussianKernel_forward_shape_witness :
  exists channel,
    GaussianKernel_forward (constant_array [4; 4] (1 # 16))
      (unsqueeze0 (unsqueeze0 (constant_array [5; 6] 0%Q)))
    = Ok channel
    /\ shape channel = [6; 7].
Proof.
  destruct (GaussianKernel_forward_shape (constant_array [4; 4] (1 # 16))
              (constant_array [5; 6] 0%Q) 4 5 6 eq_refl eq_refl
              ltac:(lia) ltac:(lia) ltac:(lia))
    as [channel [Hrun [_ [_ Heven]]]].
  exists channel. split; [exact Hrun|]. exact (Heven eq_refl).
Defined.

(** The sum of a function that vanishes off one pair of indices. *)
Lemma sum_over_delta2 (k U V : Z) (c : Q) :
  sum_over k (fun u => sum_over k (fun v =>
    if (u =? U) && (v =? V) then c else 0%Q))
  == if (0 <=? U) && (U <? k) && (0 <=? V) && (V <? k) then c else 0.
Proof.
  transitivity
    (sum_over k (fun u =>
       if u =? U then (if (0 <=? V) && (V <? k) then c else 0%Q) else 0%Q)).
  - apply Qsum_map_ext. intros u _.
    destruct (u =? U); cbn [andb].
    + apply sum_over_delta.
    + apply Qsum_map_zero.
  - rewrite sum_over_delta.
    destruct (0 <=? U), (U <? k), (0 <=? V), (V <? k); reflexivity.
Qed.

(** X8: the channel of a single point is the kernel mirrored through the
    point: at row i and column j it holds the kernel's entry at
    (y + k//2 - i, x + k//2 - j) when that is an index of the kernel, and 0
    otherwise ((x, y) the point's truncated coordinates). *)
Theorem single_point_channel (kernel : ndarray Q) (k h w c : Z) (x y : Q) :
  shape kernel = [k; k] ->
  1 <= k -> 2 <= h -> 2 <= w ->
  0 <= py_int x < w -> 0 <= py_int y < h ->
  exists dots channel,
    create_dot_map [(x, y)] [h; w; c] = Ok dots
    /\ GaussianKernel_forward kernel (unsqueeze0 (unsqueeze0 dots)) = Ok channel
    /\ forall i j,
         at_ channel [i; j]
         == if (0 <=? py_int y + k / 2 - i) && (py_int y + k / 2 - i <? k)
               && (0 <=? py_int x + k / 2 - j) && (py_int x + k / 2 - j <? k)
            then at_ kernel [py_int y + k / 2 - i; py_int x + k / 2 - j]
            else 0.
Proof.
  intros Hk Hk1 Hh Hw Hx Hy.
  pose proof (create_dot_map_spec [(x, y)] h w c ltac:(lia) ltac:(lia)) as Hdots.
  assert (Hvalid : forallb (index_valid h w) [(x, y)] = true).
  { cbn [forallb]. unfold index_valid, in_index_range. cbn [fst snd].
    rewrite !andb_true_iff, !Z.leb_le, !Z.ltb_lt. lia. }
  destruct (create_dot_map [(x, y)] [h; w; c]) as [dots|e];
    [|destruct Hdots as [Hf _]; rewrite Hvalid in Hf; discriminate].
  destruct Hdots as [_ [Hd Hat]].
  destruct (GaussianKernel_forward_at kernel dots k h w Hk Hd Hk1 Hh Hw)
    as [channel [Hrun [_ Hch]]].
  exists dots, channel. split; [reflexivity|]. split; [exact Hrun|].
  intros i j. rewrite Hch.
  rewrite <- (sum_over_delta2 k (py_int y + k / 2 - i) (py_int x + k / 2 - j)
                (at_ kernel [py_int y + k / 2 - i; py_int x + k / 2 - j])).
  apply Qsum_map_ext. intros u _. apply Qsum_map_ext. intros v _.
  rewrite Hat. cbn [existsb]. unfold hits. cbn [fst snd].
  rewrite !wrap_nonneg by lia. rewrite orb_false_r.
  destruct (Z.eqb_spec u (py_int y + k / 2 - i)) as [->|Hu];
    destruct (Z.eqb_spec v (py_int x + k / 2 - j)) as [->|Hv]; cbn [andb].
  - replace (i + (py_int y + k / 2 - i) - k / 2) with (py_int y) by lia.
    replace (j + (py_int x + k / 2 - j) - k / 2) with (py_int x) by lia.
    rewrite !Z.eqb_refl.
    destruct (Z.leb_spec 0 (py_int y)), (Z.ltb_spec (py_int y) h),
      (Z.leb_spec 0 (py_int x)), (Z.ltb_spec (py_int x) w); try lia.
    cbn [andb]. ring.
  - destruct (Z.eqb_spec (j + v - k / 2) (py_int x)); [lia|].
    rewrite andb_false_r.
    destruct ((0 <=? i + (py_int y + k / 2 - i) - k / 2)
              && (i + (py_int y + k / 2 - i) - k / 2 <? h)
              && (0 <=? j + v - k / 2) && (j + v - k / 2 <? w)); ring.
  - destruct (Z.eqb_spec (i + u - k / 2) (py_int y)); [lia|].
    cbn [andb].
    destruct ((0 <=? i + u - k / 2) && (i + u - k / 2 <? h)
              && (0 <=? j + (py_int x + k / 2 - j) - k / 2)
              && (j + (py_int x + k / 2 - j) - k / 2 <? w)); ring.
  - destruct (Z.eqb_spec (i + u - k / 2) (py_int y)); [lia|].
    cbn [andb].
    destruct ((0 <=? i + u - k / 2) && (i + u - k / 2 <? h)
              && (0 <=? j + v - k / 2) && (j + v - k / 2 <? w)); ring.
Qed.

(** X8 with binomial weights around the point (2.5, 1.2) of a 4 x 5 map. *)
Lemma single_point_channel_witness :
  exists dots channel,
    create_dot_map [(5 # 2, 6 # 5)] [4; 5; 3] = Ok dots
    /\ GaussianKernel_forward binomial_kernel (unsqueeze0 (unsqueeze0 dots))
       = Ok channel
    /\ at_ channel [1; 2] == 1 # 4
    /\ at_ channel [0; 1] == 1 # 16
    /\ at_ channel [3; 2] == 0.
Proof.
  destruct (single_point_channel binomial_kernel 3 4 5 3 (5 # 2) (6 # 5)
              eq_refl ltac:(lia) ltac:(lia) ltac:(lia)
              ltac:(vm_compute; split; [discriminate|reflexivity])
              ltac:(vm_compute; split; [discriminate|reflexivity]))
    as [dots [channel [Hd [Hc Hat]]]].
  exists dots, channel. split; [exact Hd|]. split; [exact Hc|].
  split; [|split]; (eapply Qeq_trans; [apply Hat|vm_compute; reflexivity]).
Defined.

(** ** Channels of the density field *)

Lemma mapM_nth {A B : Type} (f : A -> result B) (da : A) (db : B) :
  forall (l : list A) (bs : list B) (n : nat),
    mapM f l = Ok bs -> (n < length l)%nat ->
    f (nth n l da) = Ok (nth n bs db).
Proof.
  induction l as [|a l IH]; intros bs n H Hn; [cbn [length] in Hn; lia|].
  cbn [mapM] in H. destruct (f a) as [b|] eqn:Ea; [|discriminate].
  cbn [bind] in H. destruct (mapM f l) as [bs'|] eqn:El; [|discriminate].
  cbn [bind] in H. injection H as <-.
  destruct n as [|n]; [exact Ea|].
  cbn [nth]. apply IH; [reflexivity|cbn [length] in Hn; lia].
Qed.

Lemma mapM_in {A B : Type} (f : A -> result B) :
  forall (l : list A) (bs : list B),
    mapM f l = Ok bs ->
    (forall a, In a l -> exists b, In b bs /\ f a = Ok b)
    /\ (forall b, In b bs -> exists a, In a l /\ f a = Ok b).
Proof.
  induction l as [|a l IH]; intros bs H.
  - injection H as <-. split; intros x [].
  - cbn [mapM] in H. destruct (f a) as [b|] eqn:Ea; [|discriminate].
    cbn [bind] in H. destruct (mapM f l) as [bs'|] eqn:El; [|discriminate].
    cbn [bind] in H. injection H as <-.
    destruct (IH bs' eq_refl) as [IH1 IH2]. split.
    + intros x [<-|Hx].
      * exists b. split; [left; reflexivity|exact Ea].
      * destruct (IH1 x Hx) as [y [Hy Ey]]. exists y.
        split; [right; exact Hy|exact Ey].
    + intros y [<-|Hy].
      * exists a. split; [left; reflexivity|exact Ea].
      * destruct (IH2 y Hy) as [x [Hx Ex]]. exists x.
        split; [right; exact Hx|exact Ex].
Qed.

Lemma stack_ok_value {A : Type} (e : exn) (a0 : ndarray A)
  (rest : list (ndarray A)) :
  (forall a, In a rest -> shape a = shape a0) ->
  stack e (a0 :: rest)
  = Ok (mk_ndarray (Z.of_nat (length (a0 :: rest)) :: shape a0)
          (fun idx =>
             match idx with
             | k :: tl => at_ (nth (Z.to_nat k) (a0 :: rest) a0) tl
             | [] => at_ a0 []
             end)).
Proof.
  intros H. unfold stack.
  replace (forallb (fun a => shape_eqb (shape a) (shape a0)) rest) with true;
    [reflexivity|].
  symmetry. apply forallb_forall. intros a Ha. apply shape_eqb_eq, H, Ha.
Qed.

(** X9: with at least one kernel, all of odd size, an image of at least
    2 x 2 pixels and points the dot map accepts, the driver's density
    field has shape height x width x K and its channel number n is the
    channel of the n-th kernel of the list. *)
Theorem main_density_channels (kernel_list : list (ndarray Q))
  (locations : list (Q * Q)) (h w c : Z) :
  kernel_list <> [] ->
  (forall kernel, In kernel kernel_list ->
     exists k, shape kernel = [k; k] /\ 1 <= k /\ k mod 2 = 1) ->
  2 <= h -> 2 <= w ->
  forallb (index_valid h w) locations = true ->
  exists dots density,
    create_dot_map locations [h; w; c] = Ok dots
    /\ main_density kernel_list locations [h; w; c] = Ok density
    /\ shape density = [h; w; Z.of_nat (length kernel_list)]
    /\ forall n, (n < length kernel_list)%nat ->
         exists channel,
           GaussianKernel_forward (nth n kernel_list (impulse 1))
             (unsqueeze0 (unsqueeze0 dots)) = Ok channel
           /\ forall i j, at_ density [i; j; Z.of_nat n] = at_ channel [i; j].
Proof.
  intros Hne Hodd Hh Hw Hvalid.
  pose proof (create_dot_map_spec locations h w c ltac:(lia) ltac:(lia)) as Hdots.
  unfold main_density.
  destruct (create_dot_map locations [h; w; c]) as [dots|e];
    [|destruct Hdots as [Hf _]; rewrite Hvalid in Hf; discriminate].
  destruct Hdots as [_ [Hd _]]. cbn [bind].
  exists dots.
  assert (Hfwd : forall kernel, In kernel kernel_list ->
            exists channel,
              GaussianKernel_forward kernel (unsqueeze0 (unsqueeze0 dots))
              = Ok channel /\ shape channel = [h; w]).
  { intros kernel Hin. destruct (Hodd kernel Hin) as [k [Hk [Hk1 Hpar]]].
    destruct (GaussianKernel_forward_at kernel dots k h w Hk Hd Hk1 Hh Hw)
      as [channel [Hrun [Hs _]]].
    exists channel. split; [exact Hrun|]. rewrite Hs.
    pose proof (Z.div_mod k 2 ltac:(lia)). f_equal; [|f_equal]; lia. }
  destruct (mapM_total
              (fun kernel => GaussianKernel_forward kernel
                               (unsqueeze0 (unsqueeze0 dots))) kernel_list)
    as [maps [Hmaps Hlen]].
  { intros kernel Hin. destruct (Hfwd kernel Hin) as [channel [Hrun _]].
    exists channel. exact Hrun. }
  rewrite Hmaps. cbn [bind].
  assert (Hshapes : forall m, In m maps -> shape m = [h; w]).
  { intros m Hm. destruct (proj2 (mapM_in _ _ _ Hmaps) m Hm) as [kernel [Hin Hk]].
    destruct (Hfwd kernel Hin) as [channel [Hrun Hs]].
    rewrite Hrun in Hk. injection Hk as <-. exact Hs. }
  destruct maps as [|m0 rest].
  { destruct kernel_list; [contradiction|discriminate]. }
  rewrite stack_ok_value
    by (intros a Ha; rewrite (Hshapes a (or_intror Ha)),
                             (Hshapes m0 (or_introl eq_refl)); reflexivity).
  cbn [bind]. unfold transpose_120. cbn [shape].
  rewrite (Hshapes m0 (or_introl eq_refl)).
  eexists. split; [reflexivity|]. split; [reflexivity|]. cbn [shape at_].
  split; [rewrite Hlen; reflexivity|].
  intros n Hn. exists (nth n (m0 :: rest) m0). split.
  - apply (mapM_nth _ (impulse 1) m0 kernel_list (m0 :: rest) n Hmaps Hn).
  - intros i j. rewrite Nat2Z.id. reflexivity.
Qed.

(** X10: when two of the kernels have sizes of different parity (and the
    image has at least 2 x 2 pixels), their channels differ in shape and
    the driver's stacking raises: no density field is produced. *)
Theorem main_density_mixed_parity (kernel_list : list (ndarray Q))
  (locations : list (Q * Q)) (h w c : Z) (kernel1 kernel2 : ndarray Q)
  (k1 k2 : Z) :
  (forall kernel, In kernel kernel_list ->
     exists k, shape kernel = [k; k] /\ 1 <= k) ->
  In kernel1 kernel_list -> In kernel2 kernel_list ->
  shape kernel1 = [k1; k1] -> shape kernel2 = [k2; k2] ->
  k1 mod 2 <> k2 mod 2 ->
  2 <= h -> 2 <= w ->
  forallb (index_valid h w) locations = true ->
  main_density kernel_list locations [h; w; c] = Raise RuntimeError.
Proof.
  intros Hsq Hin1 Hin2 Hs1 Hs2 Hpar Hh Hw Hvalid.
  pose proof (create_dot_map_spec locations h w c ltac:(lia) ltac:(lia)) as Hdots.
  unfold main_density.
  destruct (create_dot_map locations [h; w; c]) as [dots|e];
    [|destruct Hdots as [Hf _]; rewrite Hvalid in Hf; discriminate].
  destruct Hdots as [_ [Hd _]]. cbn [bind].
  assert (Hfwd : forall kernel k, In kernel kernel_list ->
            shape kernel = [k; k] ->
            exists channel,
              GaussianKernel_forward kernel (unsqueeze0 (unsqueeze0 dots))
              = Ok channel
              /\ shape channel = [h + 1 - k mod 2; w + 1 - k mod 2]).
  { intros kernel k Hin Hk. destruct (Hsq kernel Hin) as [k' [Hk' Hk1]].
    rewrite Hk in Hk'. injection Hk' as <-.
    destruct (GaussianKernel_forward_at kernel dots k h w Hk Hd Hk1 Hh Hw)
      as [channel [Hrun [Hs _]]].
    exists channel. split; [exact Hrun|]. rewrite Hs.
    pose proof (Z.div_mod k 2 ltac:(lia)). f_equal; [|f_equal]; lia. }
  destruct (mapM_total
              (fun kernel => GaussianKernel_forward kernel
                               (unsqueeze0 (unsqueeze0 dots))) kernel_list)
    as [maps [Hmaps _]].
  { intros kernel Hin. destruct (Hsq kernel Hin) as [k [Hk _]].
    destruct (Hfwd kernel k Hin Hk) as [channel [Hrun _]].
    exists channel. exact Hrun. }
  rewrite Hmaps. cbn [bind].
  destruct (proj1 (mapM_in _ _ _ Hmaps) kernel1 Hin1) as [m1 [Hm1 E1]].
  destruct (proj1 (mapM_in _ _ _ Hmaps) kernel2 Hin2) as [m2 [Hm2 E2]].
  destruct (Hfwd kernel1 k1 Hin1 Hs1) as [c1 [R1 S1]].
  destruct (Hfwd kernel2 k2 Hin2 Hs2) as [c2 [R2 S2]].
  rewrite R1 in E1. injection E1 as <-. rewrite R2 in E2. injection E2 as <-.
  destruct (stack RuntimeError maps) as [stacked|e] eqn:Es.
  - exfalso.
    assert (Hok : is_ok (stack RuntimeError maps) = true) by (rewrite Es; reflexivity).
    apply stack_ok_iff in Hok. destruct Hok as [_ Hall].
    specialize (Hall c1 c2 Hm1 Hm2). rewrite S1, S2 in Hall.
    injection Hall as Hrow _. lia.
  - rewrite (stack_raises _ _ _ Es). reflexivity.
Qed.

(** X9 with the binomial kernel twice on a 4 x 5 image. *)
Lemma main_density_channels_witness :
  exists dots density,
    create_dot_map [(5 # 2, 6 # 5)] [4; 5; 3] = Ok dots
    /\ main_density [binomial_kernel; binomial_kernel] [(5 # 2, 6 # 5)] [4; 5; 3]
       = Ok density
    /\ shape density = [4; 5; 2].
Proof.
  destruct (main_density_channels [binomial_kernel; binomial_kernel]
              [(5 # 2, 6 # 5)] 4 5 3) as [dots [density [Hd [Hm [Hs _]]]]].
  - discriminate.
  - intros kernel [<-|[<-|[]]]; exists 3; repeat split; lia.
  - lia.
  - lia.
  - reflexivity.
  - exists dots, density. split; [exact Hd|]. split; [exact Hm|exact Hs].
Defined.

(** X10 with kernels of sizes 3 and 4 on a 4 x 5 image. *)
Lemma main_density_mixed_parity_witness :
  main_density [binomial_kernel; constant_array [4; 4] (1 # 16)]
    [(5 # 2, 6 # 5)] [4; 5; 3]
  = Raise RuntimeError.
Proof.
  apply (main_density_mixed_parity
           [binomial_kernel; constant_array [4; 4] (1 # 16)]
           [(5 # 2, 6 # 5)] 4 5 3
           binomial_kernel (constant_array [4; 4] (1 # 16)) 3 4).
  - intros kernel [<-|[<-|[]]]; [exists 3|exists 4]; split; try reflexivity; lia.
  - left. reflexivity.
  - right. left. reflexivity.
  - reflexivity.
  - reflexivity.
  - vm_compute. discriminate.
  - lia.
  - lia.
  - reflexivity.
Defined.

(** ** Mass under non-overlapping tiling *)

Lemma sum_over_succ (n : Z) (g : Z -> Q) :
  0 <= n -> sum_over (n + 1) g == sum_over n g + g n.
Proof.
  intros Hn. unfold sum_over.
  rewrite <- (Z2Nat.id n) at 1 2 by exact Hn.
  replace (Z.of_nat (Z.to_nat n) + 1) with (Z.of_nat (S (Z.to_nat n))) by lia.
  rewrite zrange_succ, map_app, Qsum_app. cbn [map].
  rewrite Qsum_cons, Qsum_nil, Z2Nat.id by exact Hn. ring.
Qed.

Lemma sum_over_split (n : Z) (m : nat) (g : Z -> Q) :
  0 <= n ->
  sum_over (n + Z.of_nat m) g
  == sum_over n g + sum_over (Z.of_nat m) (fun a => g (n + a)).
Proof.
  intros Hn. induction m as [|m IH].
  - rewrite Z.add_0_r. unfold sum_over at 3. cbn [zrange Z.to_nat seq map].
    change (zrange (Z.of_nat 0)) with (@nil Z). cbn [map].
    rewrite Qsum_nil. ring.
  - replace (n + Z.of_nat (S m)) with (n + Z.of_nat m + 1) by lia.
    replace (Z.of_nat (S m)) with (Z.of_nat m + 1) by lia.
    rewrite !sum_over_succ by lia. rewrite IH. ring.
Qed.

(** A sum over p * t indices, taken block by block. *)
Lemma sum_over_blocks (p t : Z) (g : Z -> Q) :
  0 <= p -> 0 <= t ->
  sum_over (p * t) g
  == sum_over p (fun q => sum_over t (fun a => g (q * t + a))).
Proof.
  intros Hp Ht. rewrite <- (Z2Nat.id p) by exact Hp.
  induction (Z.to_nat p) as [|n IH].
  - reflexivity.
  - replace (Z.of_nat (S n) * t) with (Z.of_nat n * t + Z.of_nat (Z.to_nat t))
      by (rewrite Z2Nat.id by exact Ht; lia).
    replace (Z.of_nat (S n)) with (Z.of_nat n + 1) by lia.
    rewrite sum_over_split by nia. rewrite sum_over_succ by lia.
    rewrite IH, Z2Nat.id by exact Ht. reflexivity.
Qed.

Lemma total_3d (a : ndarray Q) (n h w : Z) :
  shape a = [n; h; w] ->
  total a
  == sum_over n (fun k => sum_over h (fun i => sum_over w (fun j =>
       at_ a [k; i; j]))).
Proof.
  intros Hs. unfold total. rewrite Hs, Qsum_indices_cons.
  apply Qsum_map_ext. intros k _. rewrite Qsum_indices_cons.
  apply Qsum_map_ext. intros i _. rewrite Qsum_indices_cons.
  apply Qsum_map_ext. intros j _. apply Qsum_indices_nil.
Qed.

(** The sum over the tiles of a grid is the sum over the canvas. *)
Lemma tiled_sum (C : Z -> Z -> Q) (p1 p2 t : Z) :
  0 <= p1 -> 0 <= p2 -> 0 <= t ->
  sum_over (p1 * p2) (fun n => sum_over t (fun a => sum_over t (fun b =>
    C ((n / p2) * t + a) ((n mod p2) * t + b))))
  == sum_over (p1 * t) (fun i => sum_over (p2 * t) (fun j => C i j)).
Proof.
  intros H1 H2 Ht.
  rewrite (sum_over_blocks p1 p2) by assumption.
  rewrite (sum_over_blocks p1 t) by assumption.
  apply Qsum_map_ext. intros q1 _.
  transitivity
    (sum_over p2 (fun q2 => sum_over t (fun a => sum_over t (fun b =>
       C (q1 * t + a) (q2 * t + b))))).
  - apply Qsum_map_ext. intros q2 Hq2. apply in_zrange in Hq2.
    destruct (tile_index_div_mod q1 q2 p2 Hq2) as [-> ->]. reflexivity.
  - unfold sum_over at 1 2. rewrite Qsum_map_swap.
    apply Qsum_map_ext. intros a _.
    symmetry. apply (sum_over_blocks p2 t (fun j => C (q1 * t + a) j));
      assumption.
Qed.

(** The canvas holds the source once, and zeros. *)
Lemma canvas_sum (D : Z -> Z -> Q) (H W h w top left : Z) :
  0 <= top -> top + h <= H -> 0 <= left -> left + w <= W ->
  sum_over H (fun i => sum_over W (fun j =>
    if (top <=? i) && (i <? top + h) && (left <=? j) && (j <? left + w)
    then D (i - top) (j - left) else 0%Q))
  == sum_over h (fun a => sum_over w (fun b => D a b)).
Proof.
  intros Ht HtH Hl HlW.
  rewrite <- (window_mass_eq D h w H W (- top) (- left)).
  - apply Qsum_map_ext. intros i _. apply Qsum_map_ext. intros j _.
    replace ((0 <=? i + - top) && (i + - top <? h)
             && (0 <=? j + - left) && (j + - left <? w))
      with ((top <=? i) && (i <? top + h) && (left <=? j) && (j <? left + w)).
    + reflexivity.
    + destruct (Z.leb_spec top i), (Z.ltb_spec i (top + h)),
        (Z.leb_spec left j), (Z.ltb_spec j (left + w)),
        (Z.leb_spec 0 (i + - top)), (Z.ltb_spec (i + - top) h),
        (Z.leb_spec 0 (j + - left)), (Z.ltb_spec (j + - left) w);
        cbn [andb]; try reflexivity; lia.
  - intros a b Ha Hb Hout. lia.
Qed.

(** The density tiles of non-overlapping mode, entry by entry. *)
Lemma create_non_overlapping_crops_density (image : ndarray Z)
  (density : ndarray Q) (t h w c : Z) :
  0 < t -> 0 <= h -> 0 <= w -> 0 <= c ->
  shape density = [h; w] -> shape image = [h; w; c] ->
  exists tiles_image tiles_density,
    create_non_overlapping_crops image density t
    = Ok (tiles_image, tiles_density)
    /\ shape tiles_density
       = [(padded_extent h t / t) * (padded_extent w t / t); t; t]
    /\ forall n a b,
         at_ tiles_density [n; a; b]
         = if ((padded_extent h t - h) / 2
                 <=? (n / (padded_extent w t / t)) * t + a)
              && ((n / (padded_extent w t / t)) * t + a
                    <? (padded_extent h t - h) / 2 + h)
              && ((padded_extent w t - w) / 2
                    <=? (n mod (padded_extent w t / t)) * t + b)
              && ((n mod (padded_extent w t / t)) * t + b
                    <? (padded_extent w t - w) / 2 + w)
           then at_ density
                  [(n / (padded_extent w t / t)) * t + a
                     - (padded_extent h t - h) / 2;
                   (n mod (padded_extent w t / t)) * t + b
                     - (padded_extent w t - w) / 2]
           else 0%Q.
Proof.
  intros Ht Hh Hw Hc Hden Himg.
  set (H := padded_extent h t). set (W := padded_extent w t).
  pose proof (padded_extent_bounds h t Ht) as HbH.
  pose proof (padded_extent_bounds w t Ht) as HbW.
  pose proof (padded_extent_multiple h t Ht) as HdH.
  pose proof (padded_extent_multiple w t Ht) as HdW.
  fold H in HbH, HdH. fold W in HbW, HdW.
  set (top := (H - h) / 2). set (left := (W - w) / 2).
  assert (Htop : 0 <= top /\ top + h <= H).
  { unfold top. pose proof (Z.div_mod (H - h) 2 ltac:(lia)).
    pose proof (Z.mod_pos_bound (H - h) 2 ltac:(lia)).
    split; [apply Z.div_pos; lia|lia]. }
  assert (Hleft : 0 <= left /\ left + w <= W).
  { unfold left. pose proof (Z.div_mod (W - w) 2 ltac:(lia)).
    pose proof (Z.mod_pos_bound (W - w) 2 ltac:(lia)).
    split; [apply Z.div_pos; lia|lia]. }
  unfold create_non_overlapping_crops. rewrite Hden.
  rewrite !py_floordiv_ok by lia. cbn [bind].
  change ((h - 1 + t) / t * t) with H. change ((w - 1 + t) / t * t) with W.
  rewrite np_zeros_ok by (repeat constructor; lia). cbn [bind].
  rewrite Himg.
  change (list_getitem [h; w; c] (-1)) with (Ok c). cbn [bind].
  rewrite np_zeros_ok by (repeat constructor; lia). cbn [bind].
  fold top. fold left.
  destruct (setitem_window_spec
              (mk_ndarray [H; W] (fun _ => 0%Q)) density H W h w top left []
              eq_refl Hden) as [pd [Epd [Spd Apd]]]; try lia.
  rewrite Epd. cbn [bind].
  destruct (setitem_window_spec
              (mk_ndarray [H; W; c] (fun _ => 0)) image H W h w top left [c]
              eq_refl Himg) as [pi [Epi [Spi Api]]]; try lia.
  rewrite Epi. cbn [bind].
  destruct (rearrange_tiles_spec 0 pd H W t [] Spd eq_refl Ht)
    as [td [Etd [Std Atd]]];
    try (apply Z.mod_divide; [lia|assumption]).
  rewrite Etd. cbn [bind].
  destruct (rearrange_tiles_spec 1 pi H W t [c] Spi eq_refl Ht)
    as [ti [Eti [Sti Ati]]];
    try (apply Z.mod_divide; [lia|assumption]).
  rewrite Eti. cbn [bind].
  exists ti, td. split; [reflexivity|]. split; [exact Std|].
  intros n a b. rewrite Atd, Apd.
  match goal with |- (if ?b then _ else _) = _ => destruct b eqn:Ein end;
    [|reflexivity].
  apply window_test in Ein. rewrite bcast_index_2 by lia. reflexivity.
Qed.

(** X11: non-overlapping tiling keeps the density's mass: the entries of
    all density tiles sum to the total of the density field (the padding
    adds zeros and every source pixel lands in exactly one tile). *)
Theorem create_non_overlapping_crops_keeps_mass (image : ndarray Z)
  (density : ndarray Q) (t h w c : Z) :
  0 < t -> 0 <= h -> 0 <= w -> 0 <= c ->
  shape density = [h; w] -> shape image = [h; w; c] ->
  exists tiles_image tiles_density,
    create_non_overlapping_crops image density t
    = Ok (tiles_image, tiles_density)
    /\ total tiles_density == total density.
Proof.
  intros Ht Hh Hw Hc Hden Himg.
  destruct (create_non_overlapping_crops_density image density t h w c
              Ht Hh Hw Hc Hden Himg) as [ti [td [Hrun [Hs Hat]]]].
  exists ti, td. split; [exact Hrun|].
  pose proof (padded_extent_bounds h t Ht) as HbH.
  pose proof (padded_extent_bounds w t Ht) as HbW.
  destruct (padded_extent_multiple h t Ht) as [qh HqH].
  destruct (padded_extent_multiple w t Ht) as [qw HqW].
  assert (EH : padded_extent h t / t = qh) by (rewrite HqH; apply Z.div_mul; lia).
  assert (EW : padded_extent w t / t = qw) by (rewrite HqW; apply Z.div_mul; lia).
  assert (Hqh : 0 <= qh) by nia. assert (Hqw : 0 <= qw) by nia.
  rewrite (total_3d td _ _ _ Hs), (total_2d density h w Hden).
  rewrite EH, EW.
  set (C := fun i j =>
              if ((padded_extent h t - h) / 2 <=? i)
                 && (i <? (padded_extent h t - h) / 2 + h)
                 && ((padded_extent w t - w) / 2 <=? j)
                 && (j <? (padded_extent w t - w) / 2 + w)
              then at_ density [i - (padded_extent h t - h) / 2;
                                j - (padded_extent w t - w) / 2]
              else 0%Q).
  transitivity
    (sum_over (qh * qw) (fun n => sum_over t (fun a => sum_over t (fun b =>
       C ((n / qw) * t + a) ((n mod qw) * t + b))))).
  { apply Qsum_map_ext. intros n _. apply Qsum_map_ext. intros a _.
    apply Qsum_map_ext. intros b _. rewrite Hat, EW. reflexivity. }
  rewrite (tiled_sum C qh qw t) by lia.
  rewrite <- HqH, <- HqW.
  assert (Htop : 0 <= (padded_extent h t - h) / 2
                 /\ (padded_extent h t - h) / 2 + h <= padded_extent h t).
  { pose proof (Z.div_mod (padded_extent h t - h) 2 ltac:(lia)).
    pose proof (Z.mod_pos_bound (padded_extent h t - h) 2 ltac:(lia)).
    split; [apply Z.div_pos; lia|lia]. }
  assert (Hleft : 0 <= (padded_extent w t - w) / 2
                  /\ (padded_extent w t - w) / 2 + w <= padded_extent w t).
  { pose proof (Z.div_mod (padded_extent w t - w) 2 ltac:(lia)).
    pose proof (Z.mod_pos_bound (padded_extent w t - w) 2 ltac:(lia)).
    split; [apply Z.div_pos; lia|lia]. }
  unfold C.
  apply (canvas_sum (fun a b => at_ density [a; b])); lia.
Qed.

(** X11 on a 3 x 5 density of ones with tiles of 2: the tiles hold 15. *)
Lemma create_non_overlapping_crops_keeps_mass_witness :
  exists tiles_image tiles_density,
    create_non_overlapping_crops (constant_array [3; 5; 3] 7)
      (constant_array [3; 5] 1%Q) 2
    = Ok (tiles_image, tiles_density)
    /\ total tiles_density == 15.
Proof.
  destruct (create_non_overlapping_crops_keeps_mass
              (constant_array [3; 5; 3] 7) (constant_array [3; 5] 1%Q)
              2 3 5 3 ltac:(lia) ltac:(lia) ltac:(lia) ltac:(lia)
              eq_refl eq_refl) as [ti [td [Hrun Hmass]]].
  exists ti, td. split; [exact Hrun|].
  rewrite Hmass. vm_compute. reflexivity.
Defined.

(** ** What a dot map depends on *)

Lemma index_valid_truncated (h w : Z) (p : Q * Q) :
  index_valid h w p
  = in_index_range h (fst (truncated p)) && in_index_range w (snd (truncated p)).
Proof. reflexivity. Qed.

Lemma hits_truncated (h w i j : Z) (p : Q * Q) :
  hits h w i j p
  = (i =? wrap h (fst (truncated p))) && (j =? wrap w (snd (truncated p))).
Proof. reflexivity. Qed.

Lemma forallb_same_image {A B : Type} (key : A -> B) (test : B -> bool)
  (l l' : list A) :
  (forall t, In t (map key l) -> In t (map key l')) ->
  forallb (fun a => test (key a)) l' = true ->
  forallb (fun a => test (key a)) l = true.
Proof.
  intros Hsub H. rewrite forallb_forall in *. intros a Ha.
  assert (Hin : In (key a) (map key l')) by (apply Hsub, in_map, Ha).
  apply in_map_iff in Hin. destruct Hin as [a' [E Ha']].
  rewrite <- E. apply H, Ha'.
Qed.

Lemma existsb_same_image {A B : Type} (key : A -> B) (test : B -> bool)
  (l l' : list A) :
  (forall t, In t (map key l) -> In t (map key l')) ->
  existsb (fun a => test (key a)) l = true ->
  existsb (fun a => test (key a)) l' = true.
Proof.
  intros Hsub H. rewrite existsb_exists in *. destruct H as [a [Ha Ht]].
  assert (Hin : In (key a) (map key l')) by (apply Hsub, in_map, Ha).
  apply in_map_iff in Hin. destruct Hin as [a' [E Ha']].
  exists a'. split; [exact Ha'|]. rewrite E. exact Ht.
Qed.

(** X12: the dot map depends only on the set of truncated coordinates of
    the points: two point lists with the same set (in any order, with any
    repetitions, with any fractional parts) give maps with the same shape
    and the same entries, or both fail. *)
Theorem create_dot_map_by_pixels (locations locations' : list (Q * Q))
  (h w c : Z) :
  0 <= h -> 0 <= w ->
  (forall t, In t (map truncated locations) <-> In t (map truncated locations')) ->
  match create_dot_map locations [h; w; c],
        create_dot_map locations' [h; w; c] with
  | Ok d, Ok d' => shape d = shape d' /\ forall i j, at_ d [i; j] = at_ d' [i; j]
  | Raise e, Raise e' => e = e'
  | _, _ => False
  end.
Proof.
  intros Hh Hw Hsame.
  pose proof (create_dot_map_spec locations h w c Hh Hw) as H1.
  pose proof (create_dot_map_spec locations' h w c Hh Hw) as H2.
  assert (Hvalid : forallb (index_valid h w) locations
                   = forallb (index_valid h w) locations').
  { apply Bool.eq_true_iff_eq. split; intros H.
    - apply (forallb_same_image truncated
               (fun t => in_index_range h (fst t) && in_index_range w (snd t))
               locations' locations); [intros t; apply Hsame|exact H].
    - apply (forallb_same_image truncated
               (fun t => in_index_range h (fst t) && in_index_range w (snd t))
               locations locations'); [intros t; apply Hsame|exact H]. }
  assert (Hhits : forall i j,
             existsb (hits h w i j) locations = existsb (hits h w i j) locations').
  { intros i j. apply Bool.eq_true_iff_eq. split; intros H.
    - apply (existsb_same_image truncated
               (fun t => (i =? wrap h (fst t)) && (j =? wrap w (snd t)))
               locations locations'); [intros t; apply Hsame|exact H].
    - apply (existsb_same_image truncated
               (fun t => (i =? wrap h (fst t)) && (j =? wrap w (snd t)))
               locations' locations); [intros t; apply Hsame|exact H]. }
  destruct (create_dot_map locations [h; w; c]) as [d|e],
    (create_dot_map locations' [h; w; c]) as [d'|e'].
  - destruct H1 as [_ [S1 A1]], H2 as [_ [S2 A2]].
    split; [rewrite S1, S2; reflexivity|].
    intros i j. rewrite A1, A2, Hhits. reflexivity.
  - destruct H1 as [V1 _], H2 as [V2 _]. rewrite Hvalid, V2 in V1. discriminate.
  - destruct H1 as [V1 _], H2 as [V2 _]. rewrite Hvalid, V2 in V1. discriminate.
  - destruct H1 as [_ ->], H2 as [_ ->]. reflexivity.
Qed.

(** X12 on two lists that hit the pixels (1, 2) and (3, 0) of a 4 x 5
    map. *)
Lemma create_dot_map_by_pixels_witness :
  exists d d',
    create_dot_map [(5 # 2, 1 # 1); (0 # 1, 3 # 1)] [4; 5; 3] = Ok d
    /\ create_dot_map [(1 # 5, 7 # 2); (9 # 4, 3 # 2); (2 # 1, 1 # 1)] [4; 5; 3]
       = Ok d'
    /\ forall i j, at_ d [i; j] = at_ d' [i; j].
Proof.
  pose proof (create_dot_map_by_pixels
                [(5 # 2, 1 # 1); (0 # 1, 3 # 1)]
                [(1 # 5, 7 # 2); (9 # 4, 3 # 2); (2 # 1, 1 # 1)] 4 5 3
                ltac:(lia) ltac:(lia)) as H.
  destruct (create_dot_map [(5 # 2, 1 # 1); (0 # 1, 3 # 1)] [4; 5; 3])
    as [d|e] eqn:E1; [|discriminate E1].
  destruct (create_dot_map
              [(1 # 5, 7 # 2); (9 # 4, 3 # 2); (2 # 1, 1 # 1)] [4; 5; 3])
    as [d'|e'] eqn:E2; [|discriminate E2].
  exists d, d'. split; [reflexivity|]. split; [reflexivity|].
  apply H. intros t. cbn. tauto.
Defined.

(** ** Non-overlapping tiling of an image that does not match the density *)

(** X13: when the image's height or width differs from the density's (and
    is not 1, which numpy would broadcast), non-overlapping tiling raises
    ValueError on the assignment of the image into its canvas and returns
    no tiles. *)
Theorem create_non_overlapping_crops_shape_mismatch (image : ndarray Z)
  (density : ndarray Q) (t h w h' w' c : Z) :
  0 < t -> 0 <= h -> 0 <= w -> 0 <= c ->
  shape density = [h; w] ->
  shape image = [h'; w'; c] ->
  (h' <> h /\ h' <> 1) \/ (w' <> w /\ w' <> 1) ->
  create_non_overlapping_crops image density t = Raise ValueError.
Proof.
  intros Ht Hh Hw Hc Hden Himg Hdiff.
  set (H := padded_extent h t). set (W := padded_extent w t).
  pose proof (padded_extent_bounds h t Ht) as HbH.
  pose proof (padded_extent_bounds w t Ht) as HbW.
  fold H in HbH. fold W in HbW.
  set (top := (H - h) / 2). set (left := (W - w) / 2).
  assert (Htop : 0 <= top /\ top + h <= H).
  { unfold top. pose proof (Z.div_mod (H - h) 2 ltac:(lia)).
    pose proof (Z.mod_pos_bound (H - h) 2 ltac:(lia)).
    split; [apply Z.div_pos; lia|lia]. }
  assert (Hleft : 0 <= left /\ left + w <= W).
  { unfold left. pose proof (Z.div_mod (W - w) 2 ltac:(lia)).
    pose proof (Z.mod_pos_bound (W - w) 2 ltac:(lia)).
    split; [apply Z.div_pos; lia|lia]. }
  unfold create_non_overlapping_crops. rewrite Hden.
  rewrite !py_floordiv_ok by lia. cbn [bind].
  change ((h - 1 + t) / t * t) with H. change ((w - 1 + t) / t * t) with W.
  rewrite np_zeros_ok by (repeat constructor; lia). cbn [bind].
  rewrite Himg.
  change (list_getitem [h'; w'; c] (-1)) with (Ok c). cbn [bind].
  rewrite np_zeros_ok by (repeat constructor; lia). cbn [bind].
  fold top. fold left.
  destruct (setitem_window_spec
              (mk_ndarray [H; W] (fun _ => 0%Q)) density H W h w top left []
              eq_refl Hden) as [pd [Epd _]]; try lia.
  rewrite Epd. cbn [bind].
  unfold setitem_window. cbn [shape]. rewrite Himg.
  rewrite (slice_indices_inside H top (top + h)) by lia.
  rewrite (slice_indices_inside W left (left + w)) by lia.
  replace (top + h - top) with h by lia.
  replace (left + w - left) with w by lia.
  cbn [rev app broadcastable].
  destruct (Z.eqb_spec h' h), (Z.eqb_spec h' 1), (Z.eqb_spec w' w),
    (Z.eqb_spec w' 1); try lia;
    cbn [orb andb]; rewrite ?andb_false_r; reflexivity.
Qed.

(** X13 on a 4 x 5 image and a 3 x 5 density. *)
Lemma create_non_overlapping_crops_shape_mismatch_witness :
  create_non_overlapping_crops (constant_array [4; 5; 3] 7)
    (constant_array [3; 5] 1%Q) 2
  = Raise ValueError.
Proof.
  apply (create_non_overlapping_crops_shape_mismatch
           (constant_array [4; 5; 3] 7) (constant_array [3; 5] 1%Q)
           2 3 5 4 5 3); try lia; try reflexivity.
Defined.

(** ** Alignment of image tiles and density tiles *)

(** X14: an image of shape h x w x c and a density field of shape
    h x w x K (h, w >= T >= 1, and a stride int(T * (1 - f)), computed in
    double precision without overflow, of at least 1) are cut by
    overlapping mode into the same number of tiles, and tile number n of
    each is the window at one and the same row and column offset: image
    tiles and density tiles stay aligned. *)
Theorem create_overlapping_crops_aligned (image : ndarray Z)
  (density : ndarray Q) (h w c K crop_size : Z) (overlap : Q) :
  shape image = [h; w; c] ->
  shape density = [h; w; K] ->
  1 <= crop_size -> crop_size <= h -> crop_size <= w ->
  stride_finite crop_size overlap = true ->
  1 <= stride_of crop_size overlap ->
  exists (offsets : list (Z * Z)) (fuel0 : nat),
    forall fuel, (fuel0 <= fuel)%nat ->
      exists images densities,
        create_overlapping_crops fuel image crop_size overlap
        = Some (Ok ([], Stacked images))
        /\ create_overlapping_crops fuel density crop_size overlap
           = Some (Ok ([], Stacked densities))
        /\ shape images
           = [Z.of_nat (length offsets); crop_size; crop_size; c]
        /\ shape densities
           = [Z.of_nat (length offsets); crop_size; crop_size; K]
        /\ forall n a b ch,
             (n < length offsets)%nat ->
             at_ images [Z.of_nat n; a; b; ch]
             = at_ image [fst (nth n offsets (0, 0)) + a;
                          snd (nth n offsets (0, 0)) + b; ch]
             /\ at_ densities [Z.of_nat n; a; b; ch]
                = at_ density [fst (nth n offsets (0, 0)) + a;
                               snd (nth n offsets (0, 0)) + b; ch].
Proof.
  intros Him Hden Hc Hh Hw _ Hstride.
  set (stride := stride_of crop_size overlap) in *.
  set (X_points := window_offsets w crop_size stride).
  set (Y_points := window_offsets h crop_size stride).
  exists (flat_map (fun i => map (fun j => (i, j)) X_points) Y_points),
    (S (S (Nat.max (inner_count w crop_size stride)
                   (inner_count h crop_size stride)))).
  intros fuel Hfuel.
  destruct (create_overlapping_crops_spec image h w c crop_size overlap
              Him Hc Hh Hw Hstride fuel) as [images [Ei [Si Ai]]];
    try (fold stride; lia).
  destruct (create_overlapping_crops_spec density h w K crop_size overlap
              Hden Hc Hh Hw Hstride fuel) as [densities [Ed [Sd Ad]]];
    try (fold stride; lia).
  fold stride X_points Y_points in Si, Ai, Sd, Ad.
  exists images, densities.
  rewrite nested_loops_length.
  split; [exact Ei|]. split; [exact Ed|]. split; [exact Si|]. split; [exact Sd|].
  intros n a b ch Hn.
  assert (HX : (0 < length X_points)%nat).
  { pose proof (window_offsets_nonempty w crop_size stride).
    fold X_points in H. destruct X_points; [contradiction|cbn [length]; lia]. }
  set (r := (n / length X_points)%nat). set (q := (n mod length X_points)%nat).
  assert (Hn' : n = (r * length X_points + q)%nat).
  { unfold r, q. rewrite Nat.mul_comm. apply Nat.div_mod_eq. }
  assert (Hq : (q < length X_points)%nat)
    by (unfold q; apply Nat.mod_upper_bound; lia).
  assert (Hr : (r < length Y_points)%nat).
  { unfold r. apply Nat.Div0.div_lt_upper_bound. rewrite Nat.mul_comm. exact Hn. }
  pose proof (nested_loops_nth (fun ij => ij) (0, 0) X_points q Hq Y_points r Hr)
    as Hnth.
  rewrite map_id in Hnth. rewrite <- Hn' in Hnth. rewrite Hnth. cbn [fst snd].
  split.
  - rewrite Hn' at 1. apply Ai; assumption.
  - rewrite Hn' at 1. apply Ad; assumption.
Qed.

(** X14 on a 5 x 6 x 3 image and a 5 x 6 x 2 density with tiles of 4. *)
Lemma create_overlapping_crops_aligned_witness :
  exists fuel images densities n,
    create_overlapping_crops fuel (np_asarray (gradient_image 6 5)) 4 (1 # 2)
    = Some (Ok ([], Stacked images))
    /\ create_overlapping_crops fuel (constant_array [5; 6; 2] 1%Q) 4 (1 # 2)
       = Some (Ok ([], Stacked densities))
    /\ shape images = [n; 4; 4; 3]
    /\ shape densities = [n; 4; 4; 2].
Proof.
  destruct (create_overlapping_crops_aligned (np_asarray (gradient_image 6 5))
              (constant_array [5; 6; 2] 1%Q) 5 6 3 2 4 (1 # 2)
              eq_refl eq_refl ltac:(lia) ltac:(lia) ltac:(lia)
              ltac:(vm_compute; reflexivity) ltac:(vm_compute; discriminate))
    as [offsets [fuel0 H]].
  destruct (H fuel0 (Nat.le_refl fuel0))
    as [images [densities [Ei [Ed [Si [Sd _]]]]]].
  exists fuel0, images, densities, (Z.of_nat (length offsets)).
  split; [exact Ei|]. split; [exact Ed|]. split; assumption.
Defined.
